(** * biopharmacy_platform: the page formulas and the Lipinski game editor

    A shallow embedding of the computational core of the Streamlit pages
    under [pages/]:

    - [pages/4_Pharmacokinetic_Modeling.py]   (module [PK])
    - [pages/2_ PH_Effects_on_Drug_Ionization.py] (module [Ionization])
    - [pages/7_Physical_Pharmacy.py]          (module [PhysicalPharmacy])
    - [pages/6_Drug_Diffusion_and_Release_Mechanisms.py] (module [Release])
    - [pages/10_Lipinski_game.py]             (modules [RDKit], [Lipinski])

    Conventions of the embedding.

    - A Python [float] on which the code computes with [exp], [**] or the
      field operations is idealised as a real number ([R]); rounding,
      overflow and NaN are outside this model.  A float that the code only
      compares against a constant (the Lipinski thresholds) is kept as an
      IEEE binary64 value ([PrimFloat.float]), so those checks evaluate.
    - A one-dimensional NumPy array is a [list R]; scalar-with-array
      arithmetic is the element-wise [map].
    - A Python call either returns a value or raises: [Exc A].  The true
      division [x / y] of two Python scalars raises [ZeroDivisionError]
      when [y] is zero.  [**] on Python floats raises [OverflowError] when
      its result is out of range; the real-number power leaves that out,
      and the statements made with it are about exponents where it cannot
      happen. *)

From Stdlib Require Import String Reals Lra Lia ZArith Bool Arith List.
From Stdlib Require Import PrimFloat Uint63 Floats.
Import ListNotations.

(* ================================================================== *)
(** * The Python fragment the pages are written in *)
(* ================================================================== *)

Module Py.

(** The exceptions the modelled code can meet. *)
Inductive exn : Set :=
| ZeroDivisionError
| IndexError
| RuntimeError          (* RDKit range and precondition violations *)
| MolSanitizeException  (* raised by [Chem.SanitizeMol] *)
| ValueError            (* [odeint] on time points that are not monotonic *)
| OverflowError         (* [**] on Python floats, result out of range *)
| OtherException (msg : string).

(** [str(e)], as interpolated into the editor's error message. *)
Definition str (e : exn) : string :=
  match e with
  | ZeroDivisionError => "float division by zero"
  | IndexError => "index out of range"
  | RuntimeError => "Range Error"
  | MolSanitizeException => "Sanitization error"
  | ValueError => "The values in t must be monotonically increasing or monotonically decreasing; repeated values are allowed."
  | OverflowError => "(34, 'Numerical result out of range')"
  | OtherException msg => msg
  end.

Inductive Exc (A : Type) : Type :=
| Ok (a : A)
| Raise (e : exn).

Arguments Ok {A} a.
Arguments Raise {A} e.

Definition bind {A B} (c : Exc A) (k : A -> Exc B) : Exc B :=
  match c with
  | Ok a => k a
  | Raise e => Raise e
  end.

(** A [for x in items:] loop whose body updates a local state and may raise. *)
Fixpoint for_each {A S} (items : list A) (body : A -> S -> Exc S) (s : S)
  : Exc S :=
  match items with
  | [] => Ok s
  | x :: rest => bind (body x s) (for_each rest body)
  end.

(** [enumerate(l)] *)
Definition enumerate {A} (l : list A) : list (nat * A) :=
  combine (seq 0 (length l)) l.

(** [x / y] on Python scalars. *)
Definition truediv (x y : R) : Exc R :=
  if Req_dec_T y 0 then Raise ZeroDivisionError else Ok (x / y)%R.

(** [10 ** x] with a float exponent. *)
Definition pow10 (x : R) : R := Rpower 10 x.

End Py.

Notation "x <- c ;; k" := (Py.bind c (fun x => k))
  (at level 61, c at next level, right associativity).

(** NumPy on one-dimensional float arrays. *)
Module Np.

Definition ndarray := list R.

(** [np.zeros_like(a)] *)
Definition zeros_like (a : ndarray) : ndarray := repeat 0%R (length a).

(** [c * a] for a scalar [c] *)
Definition smul (c : R) (a : ndarray) : ndarray := map (Rmult c) a.

(** [np.exp(a)] *)
Definition exp (a : ndarray) : ndarray := map Rtrigo_def.exp a.

(** [a - b] for two arrays of one shape *)
Fixpoint sub (a b : ndarray) : ndarray :=
  match a, b with
  | x :: a', y :: b' => (x - y)%R :: sub a' b'
  | _, _ => []
  end.

(** [np.minimum(a, m)] with the scalar [m] broadcast: the element where it
    is the smaller one, [m] otherwise. *)
Definition minimum (a : ndarray) (m : R) : ndarray :=
  map (fun x => if Rlt_dec x m then x else m) a.

(** [C[i] = v]; an index past the end raises. *)
Fixpoint set_nth (C : ndarray) (i : nat) (v : R) : ndarray :=
  match C, i with
  | [], _ => []
  | _ :: C', O => v :: C'
  | x :: C', S i' => x :: set_nth C' i' v
  end.

Definition setitem (C : ndarray) (i : nat) (v : R) : Py.Exc ndarray :=
  if (i <? length C)%nat then Py.Ok (set_nth C i v) else Py.Raise Py.IndexError.

(** Arrays are objects.  A store holds the arrays that exist, each at the
    address that is its position: [np.zeros_like] and a slice of a new
    result make a new object, [C[i] = v] writes into an existing one.  [A]
    is the type of the elements. *)
Definition store (A : Type) := list (list A).

Definition new {A} (h : store A) (a : list A) : store A * nat :=
  (h ++ [a], length h).

Definition get {A} (h : store A) (p : nat) : list A := nth p h [].

Fixpoint put {A} (h : store A) (p : nat) (a : list A) : store A :=
  match h, p with
  | [], _ => []
  | _ :: h', O => a :: h'
  | x :: h', S p' => x :: put h' p' a
  end.

End Np.

(* ================================================================== *)
(** * pages/4_Pharmacokinetic_Modeling.py *)
(* ================================================================== *)

Module PK.
Import Py.
Local Open Scope R_scope.

(** The body of the loop of [one_compartment_infusion]: one assignment
    [C[i] = ...], in either branch of the test [time <= T_inf]. *)
Definition infusion_step (R_inf V k T_inf : R) (it : nat * R)
           (C : Np.ndarray) : Exc Np.ndarray :=
  let '(i, time) := it in
  if Rle_dec time T_inf then
    a <- truediv R_inf k ;;
    b <- truediv a V ;;
    Np.setitem C i (b * (1 - exp ((- k) * time)))
  else
    a <- truediv R_inf k ;;
    b <- truediv a V ;;
    Np.setitem C i
      (b * (1 - exp ((- k) * T_inf)) * exp ((- k) * (time - T_inf))).

(** [C = np.zeros_like(t); for i, time in enumerate(t): ...; return C] *)
Definition one_compartment_infusion (t : Np.ndarray) (R_inf V k T_inf : R)
  : Exc Np.ndarray :=
  for_each (enumerate t) (infusion_step R_inf V k T_inf) (Np.zeros_like t).

(** [return (F*D*ka)/(V*(ka-ke)) * (np.exp(-ke*t) - np.exp(-ka*t))]:
    the quotient of the scalars is the left operand of the product and is
    evaluated first. *)
Definition one_compartment_oral (t : Np.ndarray) (D V ka ke F : R)
  : Exc Np.ndarray :=
  coef <- truediv (F * D * ka) (V * (ka - ke)) ;;
  Ok (Np.smul coef
        (Np.sub (Np.exp (Np.smul (- ke) t)) (Np.exp (Np.smul (- ka) t)))).

(** The default [F=1.0]. *)
Definition one_compartment_oral_default (t : Np.ndarray) (D V ka ke : R) :=
  one_compartment_oral t D V ka ke 1.

(** The slider ranges of the page (lines 102-106): dose, volume and the
    two rate constants. *)
Definition dose_in_range (D : R) : Prop := 100 <= D <= 1000.
Definition volume_in_range (V : R) : Prop := 10 <= V <= 100.
Definition rate_in_range (k : R) : Prop := 0.1 <= k <= 2.0.

(** ** The evaluator with its arrays as objects

    [one_compartment_infusion] once more, over a store: the time array is
    the object at address [t], read where the source reads it, and the
    result is a new object. *)

(** One pass of [for i, time in enumerate(t):], reading [t[i]] from the
    store and writing [C[i]] into it. *)
Definition infusion_pass (R_inf V k T_inf : R) (t C : nat) (i : nat)
           (h : Np.store R) : Exc (Np.store R) :=
  let time := nth i (Np.get h t) 0 in
  arr <- infusion_step R_inf V k T_inf (i, time) (Np.get h C) ;;
  Ok (Np.put h C arr).

Definition one_compartment_infusion_in (h : Np.store R) (t : nat)
           (R_inf V k T_inf : R) : Exc (Np.store R * nat) :=
  let '(h1, C) := Np.new h (Np.zeros_like (Np.get h t)) in
  h2 <- for_each (seq 0 (length (Np.get h t)))
                 (infusion_pass R_inf V k T_inf t C) h1 ;;
  Ok (h2, C).

(** The value one pass of the infusion loop assigns for the time point
    [time]. *)
Definition infusion_value (R_inf V k T_inf time : R) : R :=
  if Rle_dec time T_inf then
    R_inf / k / V * (1 - exp ((- k) * time))
  else
    R_inf / k / V * (1 - exp ((- k) * T_inf)) * exp ((- k) * (time - T_inf)).

End PK.

(* ================================================================== *)
(** * pages/2_ PH_Effects_on_Drug_Ionization.py *)
(* ================================================================== *)

Module Ionization.
Import Py.
Local Open Scope R_scope.

Definition calculate_ionization (pH pKa : R) (is_acid : bool) : Exc R :=
  if is_acid then truediv 1 (1 + pow10 (pKa - pH))
  else truediv 1 (1 + pow10 (pH - pKa)).

End Ionization.

(* ================================================================== *)
(** * pages/7_Physical_Pharmacy.py *)
(* ================================================================== *)

Module PhysicalPharmacy.
Import Py.
Local Open Scope R_scope.

(** [h = 10**(-ph); return (2.303 * ka * h * buffer_conc) / (ka + h)**2] *)
Definition calculate_buffer_capacity (ka buffer_conc ph : R) : Exc R :=
  let h := pow10 (- ph) in
  truediv (2.303 * ka * h * buffer_conc) ((ka + h) ^ 2).

(** In the functions below a quotient or a logarithm taken on the elements
    of an array is NumPy's: on a zero divisor or a non-positive argument it
    gives a non-finite value with a warning, which the reals do not have.
    The statements about these functions take the arguments in the domain
    where the value is finite. *)

End PhysicalPharmacy.

(* ================================================================== *)
(** * pages/6_Drug_Diffusion_and_Release_Mechanisms.py *)
(* ================================================================== *)

Module Release.
Local Open Scope R_scope.

(** [return np.minimum(k*t, M0)] *)
Definition zero_order_release (t : Np.ndarray) (k M0 : R) : Np.ndarray :=
  Np.minimum (Np.smul k t) M0.

End Release.

(* ================================================================== *)
(** * Binary64 arithmetic *)
(* ================================================================== *)

(** Where a statement depends on how the arithmetic rounds, the floats
    are IEEE 754 binary64 values ([PrimFloat.float]) and the operations
    are the ones of the format, specified by the Standard Library
    ([SpecFloat], [FloatAxioms]).  This module holds what the proofs about
    the format are stated with: rounding to nearest, ties to even, on
    integers, and the value of a float as an integer multiple of
    [2 ^ (- OFF)]. *)

Module IEEE754.
Local Open Scope Z_scope.

(** [a / 2 ^ n] rounded to the nearest integer, ties to even. *)
Definition rne_div (a n : Z) : Z :=
  let q := a / 2 ^ n in
  match (2 * (a mod 2 ^ n) ?= 2 ^ n) with
  | Lt => q
  | Eq => if Z.even q then q else q + 1
  | Gt => q + 1
  end.

(** Values are counted in units of [2 ^ (- OFF)], below the smallest
    exponent a product of two floats can have. *)
Definition OFF : Z := 2200.

(** The exponent of the last place of the binade of [A], not below the
    subnormal one, and [A] rounded to it. *)
Definition Kexp (A : Z) : Z := Z.max (Z.log2 A - 52) (OFF - 1074).

Definition rv (A : Z) : Z := rne_div A (Kexp A) * 2 ^ Kexp A.

(** [2 ^ 1024], the value that stands for infinity. *)
Definition INF : Z := 2 ^ (1024 + OFF).

(** The magnitude of a float, its sign, and its signed value. *)
Definition SFv (x : spec_float) : Z :=
  match x with
  | S754_zero _ => 0
  | S754_finite _ m e => Zpos m * 2 ^ (e + OFF)
  | S754_infinity _ => INF
  | S754_nan => 0
  end.

Definition SFnonneg (x : spec_float) : bool :=
  match x with
  | S754_zero _ => true
  | S754_finite s _ _ => negb s
  | S754_infinity s => negb s
  | S754_nan => false
  end.

Definition SFsign (x : spec_float) : bool :=
  match x with
  | S754_zero _ => false
  | S754_finite s _ _ => s
  | S754_infinity s => s
  | S754_nan => false
  end.

Definition SFsv (x : spec_float) : Z :=
  if SFsign x then - SFv x else SFv x.

(** Not a NaN. *)
Definition SFnum (x : spec_float) : bool :=
  match x with S754_nan => false | _ => true end.

(** The sign bit. *)
Definition SFbit (x : spec_float) : bool :=
  match x with
  | S754_zero s => s
  | S754_finite s _ _ => s
  | S754_infinity s => s
  | S754_nan => false
  end.

End IEEE754.

Module Binary64.
Import Py.
Local Open Scope float_scope.
Local Set Warnings "-inexact-float".

(** The elementary functions are the C library's: [np.exp] and the power
    behind [**].  They are taken as an interface. *)
Class Libm := {
  exp : float -> float;
  pow : float -> float -> float
}.

(** What is used of [exp]: its values at the zeros and at minus infinity,
    which the C standard fixes (Annex F: [exp(+-0)] is 1, [exp(-inf)] is
    [+0]), and that it does not decrease, which the standard does not
    promise and the libraries in use provide. *)
Class LibmLaws (L : Libm) : Prop := {
  exp_zero : forall z, (z =? 0) = true -> exp z = 1;
  exp_neg_infinity : exp neg_infinity = 0;
  exp_monotone : forall x y, (x <=? y) = true -> (exp x <=? exp y) = true
}.

(** A one-dimensional array of [float64]. *)
Definition ndarray := list float.

(** [x / y] on Python floats: a zero divisor, of either sign, raises. *)
Definition truediv (x y : float) : Exc float :=
  if y =? 0 then Raise ZeroDivisionError else Ok (x / y).

(** [10 ** y] on Python floats ([float_pow] of CPython): the cases decided
    without the library, then the library's [pow], whose overflow is
    raised as [OverflowError] and whose underflow is returned as it is. *)
Definition pow10 {L : Libm} (y : float) : Exc float :=
  if y =? 0 then Ok 1
  else if negb (y =? y) then Ok y
  else if y =? infinity then Ok infinity
  else if y =? neg_infinity then Ok 0
  else
    let r := pow 10 y in
    if abs r =? infinity then Raise OverflowError else Ok r.

(** [return (D/V) * np.exp(-k*t)]: the quotient of the two scalars first,
    then the array [-k*t], its exponential, and the product. *)
Definition one_compartment_iv_bolus {L : Libm} (t : ndarray) (D V k : float)
  : Exc ndarray :=
  c0 <- truediv D V ;;
  Ok (map (fun e => c0 * e) (map exp (map (fun ti => (- k) * ti) t))).

(** [two_compartment_system(y, t, k12, k21, k10)]: the two rates, each
    evaluated from left to right. *)
Definition two_compartment_system (y : float * float) (t : float)
           (k12 k21 k10 : float) : float * float :=
  let '(central, peripheral) := y in
  let dcentral_dt := (- k12) * central + k21 * peripheral - k10 * central in
  let dperipheral_dt := k12 * central - k21 * peripheral in
  (dcentral_dt, dperipheral_dt).

(** [np.diff(t)] *)
Fixpoint diff (t : ndarray) : ndarray :=
  match t with
  | a :: (b :: _) as rest => (b - a) :: diff rest
  | _ => []
  end.

(** [(dt >= 0).all() or (dt <= 0).all()] for [dt = np.diff(t)]: the test
    SciPy's [odeint] makes on its time points. *)
Definition monotonic (t : ndarray) : bool :=
  forallb (fun d => 0 <=? d) (diff t) || forallb (fun d => d <=? 0) (diff t).

(** [scipy.integrate.odeint] for a two-dimensional system: the right-hand
    side, the initial state and the time points give one state per time
    point, or the call raises.  The solver is SciPy's and is taken as an
    interface. *)
Class OdeSolver := {
  odeint : (float * float -> float -> float * float) -> float * float ->
           ndarray -> Exc (list (float * float))
}.

(** What SciPy documents of [odeint]: the shape of a result is
    [(len(t), len(y0))]; the time points must be monotonic (repeated values
    allowed), and a [ValueError] is raised when they are not. *)
Class OdeSolverContract (S : OdeSolver) : Prop := {
  odeint_shape : forall f y0 t rows,
    odeint f y0 t = Ok rows -> length rows = length t;
  odeint_returns : forall f y0 t,
    t <> [] -> monotonic t = true -> exists rows, odeint f y0 t = Ok rows;
  odeint_rejects : forall f y0 t,
    monotonic t = false -> odeint f y0 t = Raise ValueError
}.

(** [initial_conditions = [D/V1, 0]; solution = odeint(...);
    return solution[:, 0]] *)
Definition two_compartment_iv_bolus {S : OdeSolver}
           (t : ndarray) (D V1 k12 k21 k10 : float) : Exc ndarray :=
  c0 <- truediv D V1 ;;
  let initial_conditions := (c0, 0) in
  solution <- odeint (fun y s => two_compartment_system y s k12 k21 k10)
                     initial_conditions t ;;
  Ok (map fst solution).

(** The same over a store of arrays: the time array is the object at
    address [t], and the column taken from the solution is a new object. *)
Definition two_compartment_iv_bolus_in {S : OdeSolver} (h : Np.store float)
           (t : nat) (D V1 k12 k21 k10 : float) : Exc (Np.store float * nat) :=
  c0 <- truediv D V1 ;;
  let initial_conditions := (c0, 0) in
  solution <- odeint (fun y s => two_compartment_system y s k12 k21 k10)
                     initial_conditions (Np.get h t) ;;
  Ok (Np.new h (map fst solution)).

(** An explicit Euler integrator behind the test SciPy makes on the time
    points, a small instance of the interface. *)
Fixpoint euler_from (f : float * float -> float -> float * float)
         (y : float * float) (t0 : float) (ts : list float)
  : list (float * float) :=
  match ts with
  | [] => []
  | t1 :: ts' =>
      let '(d1, d2) := f y t0 in
      let y' := (fst y + (t1 - t0) * d1, snd y + (t1 - t0) * d2) in
      y' :: euler_from f y' t1 ts'
  end.

Definition euler (f : float * float -> float -> float * float)
           (y0 : float * float) (t : ndarray) : list (float * float) :=
  match t with
  | [] => []
  | t0 :: ts => y0 :: euler_from f y0 t0 ts
  end.

Definition EulerSolver : OdeSolver :=
  {| odeint := fun f y0 t =>
       if monotonic t then Ok (euler f y0 t) else Raise ValueError |}.

(** [h = 10**(-ph); return (2.303 * ka * h * buffer_conc) / (ka + h)**2],
    as the page calls it: [ph] is an element of a NumPy array, so [h] and
    all that is computed from it are [float64] scalars, whose power and
    division are the library's and IEEE's and do not raise. *)
Definition calculate_buffer_capacity {L : Libm} (ka buffer_conc ph : float)
  : float :=
  let h := pow 10 (- ph) in
  (2.303 * ka * h * buffer_conc) / pow (ka + h) 2.

(** ** A small instance of the interface

    [exp] as a step function through values of the C library: at each
    argument of [exp_table] the value is the library's, between two
    arguments it is the value at the lower one; below the first argument
    every [exp] is 0 and from the last one on it is infinite, as the
    library's.  [pow] at the four arguments of [pow_table], not a number
    elsewhere. *)
Fixpoint step (tbl : list (float * float)) (x acc : float) : float :=
  match tbl with
  | [] => acc
  | (k, v) :: rest => if k <=? x then step rest x v else acc
  end.

Fixpoint ascending (acc : float) (tbl : list (float * float)) : bool :=
  match tbl with
  | [] => true
  | (_, v) :: rest => (acc <=? v) && ascending v rest
  end.

Definition exp_table : list (float * float) :=
  [(-745.1332191019411, 5e-324);
   (-700, 9.85967654375977e-305);
   (-100, 3.720075976020836e-44);
   (-50, 1.9287498479639178e-22);
   (-24, 3.775134544279098e-11);
   (-12, 6.14421235332821e-06);
   (-6, 0.0024787521766663585);
   (-3, 0.049787068367863944);
   (-1, 0.36787944117144233);
   (-0.5, 0.6065306597126334);
   (0, 1);
   (0.5, 1.6487212707001282);
   (1, 2.718281828459045);
   (3, 20.085536923187668);
   (6, 403.4287934927351);
   (12, 162754.79141900392);
   (100, 2.6881171418161356e+43);
   (700, 1.0142320547350045e+304);
   (709.782712893384, 1.7976931348622732e+308);
   (709.7827128933841, infinity)].

Definition pow_table : list (float * float * float) :=
  [(10, -7, 1e-07);
   (10, -7.00000001, 9.999999769741495e-08);
   (2e-07, 2, 3.9999999999999994e-14);
   (1.9999999769741493e-07, 2, 3.999999907896598e-14)].

Fixpoint pow_lookup (tbl : list (float * float * float)) (x y : float) : float :=
  match tbl with
  | [] => nan
  | (a, b, v) :: rest => if (a =? x) && (b =? y) then v else pow_lookup rest x y
  end.

Definition TableLibm : Libm :=
  {| exp := fun x => if x =? x then step exp_table x 0 else nan;
     pow := pow_lookup pow_table |}.

End Binary64.

(* ================================================================== *)
(** * The RDKit objects used by pages/10_Lipinski_game.py *)
(* ================================================================== *)

(** The molecule of the toolkit is a graph: atoms in index order and bonds
    between atom indices.  The graph-editing calls of the page
    ([Chem.AddHs], [EditableMol.RemoveAtom], [Chem.CombineMols],
    [EditableMol.AddBond], [Atom.GetNeighbors]) are modelled on that graph.
    Parsing, writing and sanitization are the toolkit's own algorithms and
    are taken as an interface ([Toolkit]). *)
Module RDKit.
Import Py.

Inductive BondType : Set := SINGLE | DOUBLE | TRIPLE | AROMATIC.

(** An atom: its atomic number (0 is the dummy atom [*]) and the number of
    hydrogens it carries that are not atoms of the graph. *)
Record Atom : Set := mkAtom { atomic_num : nat; num_hs : nat }.

Record Bond : Set := mkBond { begin_idx : nat; end_idx : nat; bond_type : BondType }.

Record Mol : Set := mkMol { atoms : list Atom; bonds : list Bond }.

Definition GetNumAtoms (m : Mol) : nat := length (atoms m).

Definition bond_touches (i : nat) (b : Bond) : bool :=
  (begin_idx b =? i) || (end_idx b =? i).

Definition other_end (i : nat) (b : Bond) : nat :=
  if begin_idx b =? i then end_idx b else begin_idx b.

(** [mol.GetAtomWithIdx(i).GetNeighbors()], as atom indices in bond order. *)
Definition GetNeighbors (m : Mol) (i : nat) : list nat :=
  map (other_end i) (filter (bond_touches i) (bonds m)).

Definition joins (i j : nat) (b : Bond) : bool :=
  ((begin_idx b =? i) && (end_idx b =? j))
  || ((begin_idx b =? j) && (end_idx b =? i)).

(** Every bond joins two different atoms of the molecule. *)
Definition bond_ok (n : nat) (b : Bond) : bool :=
  (begin_idx b <? n) && (end_idx b <? n) && negb (begin_idx b =? end_idx b).

Definition wf_mol (m : Mol) : bool := forallb (bond_ok (GetNumAtoms m)) (bonds m).

(** ** Chem.AddHs: the hydrogens become atoms, appended parent by parent *)

Definition hydrogen : Atom := mkAtom 1 0.

Definition add_one_h (parent : nat) (m : Mol) : Mol :=
  mkMol (atoms m ++ [hydrogen])
        (bonds m ++ [mkBond parent (length (atoms m)) SINGLE]).

Fixpoint add_n_hs (n parent : nat) (m : Mol) : Mol :=
  match n with
  | O => m
  | S n' => add_n_hs n' parent (add_one_h parent m)
  end.

Definition clear_hs (a : Atom) : Atom := mkAtom (atomic_num a) 0.

Definition AddHs (mol : Mol) : Mol :=
  let m := fold_left (fun acc (ia : nat * Atom) => add_n_hs (num_hs (snd ia)) (fst ia) acc)
                     (enumerate (atoms mol)) mol in
  mkMol (map clear_hs (atoms m)) (bonds m).

(** ** RemoveAtom: the atom goes with its bonds, higher indices move down *)

Definition renumber (idx i : nat) : nat := if idx <? i then i - 1 else i.

Definition renumber_bond (idx : nat) (b : Bond) : Bond :=
  mkBond (renumber idx (begin_idx b)) (renumber idx (end_idx b)) (bond_type b).

Definition drop_nth {A} (idx : nat) (l : list A) : list A :=
  firstn idx l ++ skipn (S idx) l.

Definition RemoveAtom (idx : nat) (m : Mol) : Exc Mol :=
  if idx <? GetNumAtoms m then
    Ok (mkMol (drop_nth idx (atoms m))
              (map (renumber_bond idx)
                   (filter (fun b => negb (bond_touches idx b)) (bonds m))))
  else Raise RuntimeError.

(** ** Chem.CombineMols: the second molecule's indices follow the first's *)

Definition shift_bond (n : nat) (b : Bond) : Bond :=
  mkBond (n + begin_idx b) (n + end_idx b) (bond_type b).

Definition CombineMols (a b : Mol) : Mol :=
  mkMol (atoms a ++ atoms b) (bonds a ++ map (shift_bond (GetNumAtoms a)) (bonds b)).

(** ** EditableMol.AddBond: both atoms exist, differ and are not yet bonded *)

Definition AddBond (i j : nat) (order : BondType) (m : Mol) : Exc Mol :=
  if (i <? GetNumAtoms m) && (j <? GetNumAtoms m) && negb (i =? j)
     && negb (existsb (joins i j) (bonds m))
  then Ok (mkMol (atoms m) (bonds m ++ [mkBond i j order]))
  else Raise RuntimeError.

(** ** What the toolkit computes by itself *)

Class Toolkit := {
  MolFromSmiles : string -> option Mol;   (* [None] when the text does not parse *)
  MolToSmiles : Mol -> Exc string;
  SanitizeMol : Mol -> Exc Mol            (* the molecule as updated, or an exception *)
}.

(** The heavy-atom picture of a molecule: elements and bonded pairs. *)
Definition elements (m : Mol) : list nat := map atomic_num (atoms m).
Definition bond_ends (m : Mol) : list (nat * nat) :=
  map (fun b => (begin_idx b, end_idx b)) (bonds m).

(** Sanitization recomputes valences, hydrogens and aromaticity; it adds or
    removes neither atoms nor bonds. *)
Class ToolkitLaws (T : Toolkit) : Prop := {
  sanitize_elements : forall m m', SanitizeMol m = Ok m' -> elements m' = elements m;
  sanitize_bond_ends : forall m m', SanitizeMol m = Ok m' -> bond_ends m' = bond_ends m
}.

(** ** Reading a molecule *)

Definition indices_of (p : nat -> bool) (els : list nat) : list nat :=
  map fst (filter (fun iz : nat * nat => p (snd iz)) (enumerate els)).

Definition carbon_at (els : list nat) (i : nat) : bool :=
  match nth_error els i with
  | Some z => z =? 6
  | None => false
  end.

(** The bonded pairs with a carbon at both ends. *)
Definition cc_pairs (els : list nat) (ends : list (nat * nat)) : list (nat * nat) :=
  filter (fun e => carbon_at els (fst e) && carbon_at els (snd e)) ends.

Definition bonded_to_carbon (els : list nat) (ends : list (nat * nat)) (i : nat) : bool :=
  existsb (fun e => ((fst e =? i) && carbon_at els (snd e))
                    || ((snd e =? i) && carbon_at els (fst e))) ends.

(** How many bonds end at atom [i]. *)
Definition degree (ends : list (nat * nat)) (i : nat) : nat :=
  length (filter (fun e => (fst e =? i) || (snd e =? i)) ends).

(** The carbon skeleton of propane: three carbon atoms and no other heavy
    atom, two carbon-carbon bonds, every carbon bonded to a carbon. *)
Definition is_propane_skeleton (els : list nat) (ends : list (nat * nat)) : bool :=
  (length (indices_of (Nat.eqb 6) els) =? 3)
  && (length (indices_of (fun z => negb (z =? 1)) els) =? 3)
  && (length (cc_pairs els ends) =? 2)
  && forallb (bonded_to_carbon els ends) (indices_of (Nat.eqb 6) els).

Definition propane_skeleton (m : Mol) : bool :=
  is_propane_skeleton (elements m) (bond_ends m).

(** ** The molecules of the page *)

Definition carbon (hs : nat) : Atom := mkAtom 6 hs.
Definition nitrogen (hs : nat) : Atom := mkAtom 7 hs.
Definition oxygen (hs : nat) : Atom := mkAtom 8 hs.
Definition dummy : Atom := mkAtom 0 0.

(** ["CC"], the starting molecule. *)
Definition ethane : Mol := mkMol [carbon 3; carbon 3] [mkBond 0 1 SINGLE].

(** ["[*:1]C"], ["[*:1]O"], ["[*:1]N"], ["[*:1]C(=O)O"], ["[*:1]c1ccccc1"]:
    the attachment point is atom 0. *)
Definition methyl_fragment : Mol := mkMol [dummy; carbon 3] [mkBond 0 1 SINGLE].
Definition hydroxyl_fragment : Mol := mkMol [dummy; oxygen 1] [mkBond 0 1 SINGLE].
Definition amine_fragment : Mol := mkMol [dummy; nitrogen 2] [mkBond 0 1 SINGLE].
Definition carboxyl_fragment : Mol :=
  mkMol [dummy; carbon 0; oxygen 0; oxygen 1]
        [mkBond 0 1 SINGLE; mkBond 1 2 DOUBLE; mkBond 1 3 SINGLE].
Definition benzene_fragment : Mol :=
  mkMol [dummy; carbon 0; carbon 1; carbon 1; carbon 1; carbon 1; carbon 1]
        [mkBond 0 1 SINGLE; mkBond 1 2 AROMATIC; mkBond 2 3 AROMATIC;
         mkBond 3 4 AROMATIC; mkBond 4 5 AROMATIC; mkBond 5 6 AROMATIC;
         mkBond 6 1 AROMATIC].

(** Ethane less one hydrogen of its first carbon, and the carbon of the
    methyl fragment on its own, bonded to nothing. *)
Definition detached_product : Mol :=
  mkMol [carbon 0; carbon 0; hydrogen; hydrogen; hydrogen; hydrogen; hydrogen; carbon 3]
        [mkBond 0 1 SINGLE; mkBond 0 2 SINGLE; mkBond 0 3 SINGLE;
         mkBond 1 4 SINGLE; mkBond 1 5 SINGLE; mkBond 1 6 SINGLE].

(** ["C"] and ["CO"]: fragments without an attachment point. *)
Definition methane : Mol := mkMol [carbon 4] [].
Definition methanol : Mol := mkMol [carbon 3; oxygen 1] [mkBond 0 1 SINGLE].

(** ["O=C=O"]: a molecule without any hydrogen. *)
Definition carbon_dioxide : Mol :=
  mkMol [oxygen 0; carbon 0; oxygen 0] [mkBond 0 1 DOUBLE; mkBond 1 2 DOUBLE].

(** Propane with the hydrogens of the first two carbons as atoms, the
    product an attachment of methyl to ethane is meant to give. *)
Definition propane : Mol :=
  mkMol [carbon 0; carbon 0; hydrogen; hydrogen; hydrogen; hydrogen; hydrogen; carbon 3]
        [mkBond 0 1 SINGLE; mkBond 0 2 SINGLE; mkBond 0 3 SINGLE;
         mkBond 1 4 SINGLE; mkBond 1 5 SINGLE; mkBond 1 6 SINGLE;
         mkBond 0 7 SINGLE].

(** ** A small instance of the interface

    It reads the strings of the page from a table and validates valences:
    enough to run the editor on the built-in fragments. *)

Definition smiles_table : list (string * Mol) :=
  [("CC", ethane); ("C", methane); ("CO", methanol); ("O=C=O", carbon_dioxide);
   ("[*:1]C", methyl_fragment); ("[*:1]O", hydroxyl_fragment);
   ("[*:1]N", amine_fragment); ("[*:1]C(=O)O", carboxyl_fragment);
   ("[*:1]c1ccccc1", benzene_fragment)]%string.

Fixpoint table_lookup (t : list (string * Mol)) (s : string) : option Mol :=
  match t with
  | [] => None
  | (k, m) :: t' => if String.eqb k s then Some m else table_lookup t' s
  end.

Definition order_x2 (t : BondType) : nat :=
  match t with SINGLE => 2 | DOUBLE => 4 | TRIPLE => 6 | AROMATIC => 3 end.

Definition max_valence (z : nat) : nat :=
  match z with
  | 1 => 1 | 6 => 4 | 7 => 3 | 8 => 2 | _ => 8
  end.

(** Twice the valence an atom uses: its bond orders and its hydrogens. *)
Definition valence_x2 (m : Mol) (i : nat) (a : Atom) : nat :=
  list_sum (map (fun b => order_x2 (bond_type b)) (filter (bond_touches i) (bonds m)))
  + 2 * num_hs a.

Definition valences_ok (m : Mol) : bool :=
  forallb (fun ia : nat * Atom =>
             valence_x2 m (fst ia) (snd ia) <=? 2 * max_valence (atomic_num (snd ia)))
          (enumerate (atoms m)).

Definition atom_eqb (a b : Atom) : bool :=
  (atomic_num a =? atomic_num b) && (num_hs a =? num_hs b).

Definition bond_type_eqb (s t : BondType) : bool :=
  match s, t with
  | SINGLE, SINGLE | DOUBLE, DOUBLE | TRIPLE, TRIPLE | AROMATIC, AROMATIC => true
  | _, _ => false
  end.

Definition bond_eqb (b c : Bond) : bool :=
  (begin_idx b =? begin_idx c) && (end_idx b =? end_idx c)
  && bond_type_eqb (bond_type b) (bond_type c).

Fixpoint list_eqb {A} (eqb : A -> A -> bool) (l1 l2 : list A) : bool :=
  match l1, l2 with
  | [], [] => true
  | x :: l1', y :: l2' => eqb x y && list_eqb eqb l1' l2'
  | _, _ => false
  end.

Definition mol_eqb (m1 m2 : Mol) : bool :=
  list_eqb atom_eqb (atoms m1) (atoms m2) && list_eqb bond_eqb (bonds m1) (bonds m2).

(** The writer knows the molecules of the table and no other. *)
Definition table_write (t : list (string * Mol)) (m : Mol) : Exc string :=
  match find (fun km : string * Mol => mol_eqb (snd km) m) t with
  | Some km => Ok (fst km)
  | None => Raise (OtherException "molecule not in the table")
  end.

Definition TableToolkit : Toolkit := {|
  MolFromSmiles := table_lookup smiles_table;
  MolToSmiles := table_write smiles_table;
  SanitizeMol := fun m => if valences_ok m then Ok m else Raise MolSanitizeException
|}.

(** ** rdkit.Chem.Descriptors, as used by the page *)

Class Descriptors := {
  ExactMolWt : Mol -> float;
  MolLogP : Mol -> float;
  NumHDonors : Mol -> Z;
  NumHAcceptors : Mol -> Z
}.

(** A crude instance: nominal masses, a count-based logP, nitrogens and
    oxygens as acceptors and those carrying a hydrogen as donors. *)
Definition nominal_mass (a : Atom) : float :=
  let hs := PrimFloat.of_uint63 (Uint63.of_Z (Z.of_nat (num_hs a))) in
  match atomic_num a with
  | 1 => 1 + hs
  | 6 => 12 + hs
  | 7 => 14 + hs
  | 8 => 16 + hs
  | _ => hs
  end%float.

Definition count_atoms (p : Atom -> bool) (m : Mol) : Z :=
  Z.of_nat (length (filter p (atoms m))).

Definition TableDescriptors : Descriptors := {|
  ExactMolWt := fun m => fold_left (fun acc a => (acc + nominal_mass a)%float) (atoms m) 0%float;
  MolLogP := fun m =>
    PrimFloat.of_uint63 (Uint63.of_Z (count_atoms (fun a => atomic_num a =? 6) m));
  NumHDonors := count_atoms (fun a => ((atomic_num a =? 7) || (atomic_num a =? 8))
                                      && negb (num_hs a =? 0));
  NumHAcceptors := count_atoms (fun a => (atomic_num a =? 7) || (atomic_num a =? 8))
|}.

End RDKit.

(* ================================================================== *)
(** * pages/10_Lipinski_game.py *)
(* ================================================================== *)

Module Lipinski.
Import Py RDKit.
Local Open Scope string_scope.
Local Open Scope nat_scope.
Local Open Scope list_scope.

(** What a run of the page shows through [st.error] and [st.info]. *)
Inductive ui_event : Set :=
| StError (msg : string)
| StInfo (msg : string).

(** A computation that may write to the page and may raise. *)
Definition UI (A : Type) : Type := (list ui_event * Exc A)%type.

Definition ret {A} (a : A) : UI A := ([], Ok a).

Definition lift {A} (c : Exc A) : UI A := ([], c).

Definition bindU {A B} (c : UI A) (k : A -> UI B) : UI B :=
  match c with
  | (out, Ok a) => let (out', r) := k a in (out ++ out', r)
  | (out, Raise e) => (out, Raise e)
  end.

Definition st_error (msg : string) : UI unit := ([StError msg], Ok tt).

Notation "x <~ c ;; k" := (bindU c (fun x => k))
  (at level 61, c at next level, right associativity).

Section WithToolkit.
Context {T : Toolkit}.

(** The first loop of [attach_functional_group]: the first hydrogen atom
    that has a neighbour, with [neighbors[0]]; the pair is
    [(hydrogen_idx, heavy_idx)]. *)
Fixpoint find_hydrogen (mol_h : Mol) (l : list (nat * Atom))
  : option (nat * nat) :=
  match l with
  | [] => None
  | (idx, atom) :: rest =>
      if atomic_num atom =? 1 then
        match GetNeighbors mol_h idx with
        | heavy_idx :: _ => Some (idx, heavy_idx)
        | [] => find_hydrogen mol_h rest
        end
      else find_hydrogen mol_h rest
  end.

(** The second loop: the index of the first dummy atom of the fragment. *)
Fixpoint find_dummy (l : list (nat * Atom)) : option nat :=
  match l with
  | [] => None
  | (idx, atom) :: rest =>
      if atomic_num atom =? 0 then Some idx else find_dummy rest
  end.

(** [dummy_idx] after the loop and its fallback [if dummy_idx is None:
    dummy_idx = 0]. *)
Definition dummy_index (fg : Mol) : nat :=
  match find_dummy (enumerate (atoms fg)) with
  | Some idx => idx
  | None => 0      (* fallback if no dummy found *)
  end.

(** [try: rw_mol.RemoveAtom(new_dummy_idx) except Exception as e:
    st.error(...)]: on an exception the molecule is left as it was. *)
Definition remove_dummy (new_dummy_idx : nat) (new_mol : Mol) : UI Mol :=
  match RemoveAtom new_dummy_idx new_mol with
  | Ok rw_mol => ret rw_mol
  | Raise e =>
      _ <~ st_error ("Error removing dummy atom: " ++ str e)%string ;;
      ret new_mol
  end.

Definition attach_functional_group (mol : Mol) (fg_smiles : string)
  : UI (option Mol) :=
  match MolFromSmiles fg_smiles with
  | None => ret None
  | Some fg =>
      let mol_h := AddHs mol in
      match find_hydrogen mol_h (enumerate (atoms mol_h)) with
      | None => ret None
      | Some (hydrogen_idx, heavy_idx) =>
          mol_no_H <~ lift (RemoveAtom hydrogen_idx mol_h) ;;
          let heavy_idx :=
            if hydrogen_idx <? heavy_idx then heavy_idx - 1 else heavy_idx in
          let combo := CombineMols mol_no_H fg in
          let n_atoms_main := GetNumAtoms mol_no_H in
          let dummy_idx := dummy_index fg in
          let new_dummy_idx := n_atoms_main + dummy_idx in
          new_mol <~ lift (AddBond heavy_idx new_dummy_idx SINGLE combo) ;;
          rw_mol <~ remove_dummy new_dummy_idx new_mol ;;
          final_mol <~ lift (SanitizeMol rw_mol) ;;
          ret (Some final_mol)
      end
  end.

(** ** The compliance check *)

(** The dictionary of [calculate_lipinski_parameters]: two floats of the
    descriptors and two counts. *)
Record Params : Set := mkParams {
  molecular_weight : float;
  logp : float;
  h_bond_donors : Z;
  h_bond_acceptors : Z
}.

(** [False] for a missing record, else the pair [(rules, compliance)]. *)
Inductive CheckResult : Set :=
| CheckFalse
| CheckTuple (rules : list (string * bool)) (compliance : bool).

(** [sum] of booleans counts the true ones. *)
Definition sum_bools (l : list bool) : Z :=
  fold_left (fun acc (b : bool) => (acc + (if b then 1 else 0))%Z) l 0%Z.

Definition check_lipinski_compliance (params : option Params) : CheckResult :=
  match params with
  | None => CheckFalse
  | Some p =>
      let rules :=
        [("Molecular Weight", PrimFloat.leb (molecular_weight p) 500%float);
         ("LogP", PrimFloat.leb (logp p) 5%float);
         ("H-Bond Donors", (h_bond_donors p <=? 5)%Z);
         ("H-Bond Acceptors", (h_bond_acceptors p <=? 10)%Z)] in
      let compliance := (3 <=? sum_bools (map snd rules))%Z in
      CheckTuple rules compliance
  end.

(** [rules[key]] *)
Fixpoint rule (rules : list (string * bool)) (key : string) : option bool :=
  match rules with
  | [] => None
  | (k, v) :: rest => if String.eqb k key then Some v else rule rest key
  end.

(** [check_lipinski_compliance(params)[0][key]] *)
Definition rule_of (r : CheckResult) (key : string) : option bool :=
  match r with
  | CheckFalse => None
  | CheckTuple rules _ => rule rules key
  end.

(** The four criteria of the rule of five, and how many a record violates. *)
Definition criteria (p : Params) : list bool :=
  [PrimFloat.leb (molecular_weight p) 500%float;
   PrimFloat.leb (logp p) 5%float;
   (h_bond_donors p <=? 5)%Z;
   (h_bond_acceptors p <=? 10)%Z].

Definition violations (p : Params) : nat :=
  length (filter negb (criteria p)).

Definition satisfied (p : Params) : nat :=
  length (filter (fun b : bool => b) (criteria p)).

(** ** The session and the editor *)

Record SessionState : Set := mkSession {
  score : Z;
  current_molecule : string;
  game_mode : string;
  message : string;
  view_3d : bool;
  start_time : option R;      (* [None] outside the time trial *)
  submitted : option bool     (* absent until first set *)
}.

Definition set_message (s : SessionState) (msg : string) : SessionState :=
  mkSession (score s) (current_molecule s) (game_mode s) msg (view_3d s)
            (start_time s) (submitted s).

(** The three assignments after a successful edit: the molecule, the
    message, and [submitted = False]. *)
Definition accept_molecule (s : SessionState) (smiles msg : string)
  : SessionState :=
  mkSession (score s) smiles (game_mode s) msg (view_3d s) (start_time s)
            (Some false).

Inductive FunctionalGroup : Set :=
| Methyl | Hydroxyl | Amine | Carboxyl | BenzeneRing.

Definition functional_groups (g : FunctionalGroup) : string :=
  match g with
  | Methyl => "[*:1]C"
  | Hydroxyl => "[*:1]O"
  | Amine => "[*:1]N"
  | Carboxyl => "[*:1]C(=O)O"
  | BenzeneRing => "[*:1]c1ccccc1"
  end.

(** The body of [if st.button("Add Group"):], a [try] whose handler turns
    every exception into a message. *)
Definition add_group (s : SessionState) (selected_group : FunctionalGroup)
  : list ui_event * SessionState :=
  match MolFromSmiles (current_molecule s) with
  | None => ([], set_message s "Current molecule is invalid!")
  | Some mol =>
      let (out, r) :=
        attach_functional_group mol (functional_groups selected_group) in
      match r with
      | Ok (Some new_mol) =>
          match MolToSmiles new_mol with
          | Ok smiles => (out, accept_molecule s smiles "Group added successfully!")
          | Raise e => (out, set_message s ("Error: " ++ str e)%string)
          end
      | Ok None => (out, set_message s "Invalid modification!")
      | Raise e => (out, set_message s ("Error: " ++ str e)%string)
      end
  end.

(** The edit of the button does not go through: the current text does not
    parse, the attachment returns [None] or raises, or the product
    cannot be written back. *)
Definition attachment_fails (s : SessionState) (g : FunctionalGroup) : Prop :=
  match MolFromSmiles (current_molecule s) with
  | None => True
  | Some mol =>
      match snd (attach_functional_group mol (functional_groups g)) with
      | Ok (Some new_mol) => exists e, MolToSmiles new_mol = Raise e
      | Ok None => True
      | Raise _ => True
      end
  end.

(** The text box: [if smiles_input != current_molecule: ...]. *)
Definition enter_smiles (s : SessionState) (smiles_input : string)
  : SessionState :=
  if String.eqb smiles_input (current_molecule s) then s
  else
    match MolFromSmiles smiles_input with
    | Some _ => accept_molecule s smiles_input "SMILES updated successfully!"
    | None => set_message s "Invalid SMILES!"
    end.

(** [if st.session_state.message: st.info(...); message = ""] *)
Definition show_message (s : SessionState) : list ui_event * SessionState :=
  if String.eqb (message s) "" then ([], s)
  else ([StInfo (message s)], set_message s "").

(** What the user did in this run of the page. *)
Record EditorInput : Set := mkInput {
  add_group_clicked : bool;
  selected_group : FunctionalGroup;
  smiles_input : string
}.

Definition functional_group_editor (s : SessionState) (inp : EditorInput)
  : list ui_event * SessionState :=
  let (out1, s1) :=
    if add_group_clicked inp then add_group s (selected_group inp)
    else ([], s) in
  let s2 := enter_smiles s1 (smiles_input inp) in
  let (out2, s3) := show_message s2 in
  (out1 ++ out2, s3).

(** ** The rest of a run of the page *)

Context {Ds : Descriptors}.

Definition calculate_lipinski_parameters (mol : option Mol) : option Params :=
  match mol with
  | None => None
  | Some m => Some (mkParams (ExactMolWt m) (MolLogP m) (NumHDonors m) (NumHAcceptors m))
  end.

(** The keys of the parameter dictionary, in insertion order. *)
Definition param_keys : list string :=
  ["Molecular Weight"; "LogP"; "H-Bond Donors"; "H-Bond Acceptors"].

(** [st.session_state.get("submitted", False)] *)
Definition get_submitted (s : SessionState) : bool :=
  match submitted s with
  | Some b => b
  | None => false
  end.

(** [rules0[key]] for every key; a missing key raises. *)
Fixpoint comprehension_keys (rules0 : list (string * bool)) (keys : list string)
  : Exc (list bool) :=
  match keys with
  | [] => Ok []
  | key :: rest =>
      match rule rules0 key with
      | None => Raise (OtherException "KeyError")
      | Some v =>
          vs <- comprehension_keys rules0 rest ;;
          Ok (v :: vs)
      end
  end.

(** What [display_parameters] does to the session (what it writes to the
    page is left out).  [rules[0][param]] is read for every key and
    [rules[1]] decides; a [rules] that is [False] cannot be indexed. *)
Definition display_parameters (s : SessionState) (params : option Params)
           (rules : CheckResult) : Exc SessionState :=
  match params with
  | None => Ok s
  | Some _ =>
      match rules with
      | CheckFalse => Raise (OtherException "'bool' object is not subscriptable")
      | CheckTuple rules0 compliance =>
          _ <- comprehension_keys rules0 param_keys ;;
          if compliance then
            if negb (String.eqb (game_mode s) "tutorial") && negb (get_submitted s)
            then Ok (mkSession (score s + 1) (current_molecule s) (game_mode s)
                               (message s) (view_3d s) (start_time s) (Some true))
            else Ok s
          else Ok s
      end
  end.

(** The modes of the sidebar radio, and their names in lower case. *)
Inductive Mode : Set := Tutorial | DesignChallenge | FixItMode | TimeTrial.

Definition mode_name (m : Mode) : string :=
  match m with
  | Tutorial => "tutorial"
  | DesignChallenge => "design challenge"
  | FixItMode => "fix-it mode"
  | TimeTrial => "time trial"
  end.

(** [game_modes]; [now] is what [time.time()] returns. *)
Definition game_modes (s : SessionState) (new_mode : Mode) (now : R) : SessionState :=
  if String.eqb (mode_name new_mode) (game_mode s) then s
  else
    mkSession 0 "CC" (mode_name new_mode) (message s) (view_3d s)
              (if String.eqb (mode_name new_mode) "time trial" then Some now else None)
              (Some false).

(** The timer of the time trial: the session with its start time set, and
    whether the run stops here ([st.stop()]). *)
Definition time_trial_timer (s : SessionState) (now_start now : R)
  : list ui_event * SessionState * bool :=
  if String.eqb (game_mode s) "time trial" then
    let started :=
      match start_time s with
      | Some t0 => t0
      | None => now_start
      end in
    let s' := mkSession (score s) (current_molecule s) (game_mode s) (message s)
                        (view_3d s) (Some started) (submitted s) in
    let elapsed := (now - started)%R in
    let remaining := (60 - elapsed)%R in
    if Rle_dec remaining 0 then ([StError "Time's up!"], s', true)
    else ([], s', false)
  else ([], s, false).

(** [display_molecule] keeps the toggle in the session. *)
Definition display_molecule (s : SessionState) (toggle : bool) : SessionState :=
  mkSession (score s) (current_molecule s) (game_mode s) (message s) toggle
            (start_time s) (submitted s).

(** What the user and the clock give to one run. *)
Record RunInput : Set := mkRun {
  new_mode : Mode;
  clock_modes : R;       (* [time.time()] in [game_modes] *)
  clock_start : R;       (* [time.time()] when the start time is missing *)
  clock_now : R;         (* [time.time()] for the elapsed time *)
  toggle_3d : bool;
  editor_input : EditorInput
}.

Definition main_game_loop (s : SessionState) (inp : RunInput)
  : list ui_event * Exc SessionState :=
  let s1 := game_modes s (new_mode inp) (clock_modes inp) in
  let '(out1, s2, stopped) := time_trial_timer s1 (clock_start inp) (clock_now inp) in
  if stopped then (out1, Ok s2)
  else
    let s3 := display_molecule s2 (toggle_3d inp) in
    let mol := MolFromSmiles (current_molecule s3) in
    let params := calculate_lipinski_parameters mol in
    let rules := check_lipinski_compliance params in
    match display_parameters s3 params rules with
    | Raise e => (out1, Raise e)
    | Ok s4 =>
        let (out2, s5) := functional_group_editor s4 (editor_input inp) in
        (out1 ++ out2, Ok s5)
    end.

End WithToolkit.

End Lipinski.

(* ================================================================== *)
(** * Properties of the formula pages *)
(* ================================================================== *)

Module PyFacts.
Import Py.
Local Open Scope R_scope.

Lemma truediv_ok (x y : R) : y <> 0 -> truediv x y = Ok (x / y).
Proof.
  intros Hy. unfold truediv. destruct (Req_dec_T y 0) as [E | _].
  - contradiction.
  - reflexivity.
Qed.

Lemma truediv_zero (x y : R) : y = 0 -> truediv x y = Raise ZeroDivisionError.
Proof.
  intros Hy. unfold truediv. destruct (Req_dec_T y 0) as [_ | N].
  - reflexivity.
  - contradiction.
Qed.

Lemma pow10_pos (x : R) : 0 < pow10 x.
Proof. unfold pow10, Rpower. apply exp_pos. Qed.

Lemma pow10_0 : pow10 0 = 1.
Proof. unfold pow10, Rpower. rewrite Rmult_0_l. apply exp_0. Qed.

Lemma pow10_lt (x y : R) : x < y -> pow10 x < pow10 y.
Proof. intros H. unfold pow10. apply Rpower_lt; lra. Qed.

Lemma pow10_inj (x y : R) : pow10 x = pow10 y -> x = y.
Proof.
  intros E. destruct (Rtotal_order x y) as [L | [Q | G]].
  - apply pow10_lt in L. lra.
  - exact Q.
  - apply pow10_lt in G. lra.
Qed.

End PyFacts.

Module PKFacts.
Import Py PyFacts PK.
Local Open Scope R_scope.
Local Set Warnings "-inexact-float".

(** C4, the input that refutes the claim as worded: with the equal rate
    constants 0.5 of the two sliders the call raises, it does not return
    an array of non-finite values. *)
Lemma oral_equal_rates_counterexample :
  one_compartment_oral_default [0; 12; 24] 500 50 0.5 0.5
  = Raise ZeroDivisionError
  /\ ~ exists C, one_compartment_oral_default [0; 12; 24] 500 50 0.5 0.5 = Ok C.
Proof.
  assert (E : one_compartment_oral_default [0; 12; 24] 500 50 0.5 0.5
              = Raise ZeroDivisionError).
  { unfold one_compartment_oral_default, one_compartment_oral.
    rewrite truediv_zero by lra. reflexivity. }
  split; [exact E |]. intros [C HC]. rewrite E in HC. discriminate.
Qed.

(** C4, as the code behaves.  The formula evaluator validates nothing: with
    equal absorption and elimination rate constants the denominator
    V*(ka-ke) is zero, the division is unguarded, and the call raises
    ZeroDivisionError whatever the other arguments are; equal rate
    constants are within the slider ranges of the page. *)
Theorem oral_equal_rates_raise :
  (forall (t : Np.ndarray) D V k F,
      V * (k - k) = 0
      /\ one_compartment_oral t D V k k F = Raise ZeroDivisionError)
  /\ exists D V ka ke,
       dose_in_range D /\ volume_in_range V
       /\ rate_in_range ka /\ rate_in_range ke /\ ka = ke
       /\ forall t, one_compartment_oral_default t D V ka ke
                    = Raise ZeroDivisionError.
Proof.
  assert (G : forall (t : Np.ndarray) D V k F,
             one_compartment_oral t D V k k F = Raise ZeroDivisionError).
  { intros. unfold one_compartment_oral.
    rewrite truediv_zero by lra. reflexivity. }
  split.
  - intros. split; [lra | apply G].
  - exists 500, 50, 0.5, 0.5.
    unfold dose_in_range, volume_in_range, rate_in_range.
    repeat (split; [lra |]). intros t. apply G.
Qed.

(** With a non-zero denominator the oral model returns its closed form. *)
Lemma oral_distinct_rates (t : Np.ndarray) (D V ka ke F : R) :
  V * (ka - ke) <> 0 ->
  exists C, one_compartment_oral t D V ka ke F = Ok C /\ length C = length t.
Proof.
  intros Hd. unfold one_compartment_oral. rewrite (truediv_ok _ _ Hd).
  cbn [bind]. eexists. split; [reflexivity |].
  unfold Np.smul, Np.exp. rewrite length_map.
  assert (L : forall a b : Np.ndarray, length a = length b ->
              length (Np.sub a b) = length a).
  { induction a as [| x a IH]; intros [| y b] Hl; simpl in *; try lia.
    rewrite IH; lia. }
  rewrite L; rewrite !length_map; reflexivity.
Qed.

(** ** The infusion loop *)

Lemma set_nth_length (C : Np.ndarray) (i : nat) (v : R) :
  length (Np.set_nth C i v) = length C.
Proof.
  revert i. induction C as [| x C IH]; intros [| i]; simpl; auto.
Qed.

Lemma infusion_step_length (R_inf V k T_inf : R) (i : nat) (time : R)
      (C : Np.ndarray) :
  k <> 0 -> V <> 0 -> (i < length C)%nat ->
  exists C', infusion_step R_inf V k T_inf (i, time) C = Ok C'
             /\ length C' = length C.
Proof.
  intros Hk HV Hi. unfold infusion_step.
  rewrite (truediv_ok R_inf k Hk). cbn [bind].
  rewrite (truediv_ok (R_inf / k) V HV). cbn [bind].
  unfold Np.setitem. apply Nat.ltb_lt in Hi. rewrite Hi.
  destruct (Rle_dec time T_inf); eexists; (split; [reflexivity |]);
    apply set_nth_length.
Qed.

Lemma infusion_loop_length (R_inf V k T_inf : R) (items : list (nat * R)) :
  k <> 0 -> V <> 0 ->
  forall C : Np.ndarray,
    Forall (fun it => (fst it < length C)%nat) items ->
    exists C', for_each items (infusion_step R_inf V k T_inf) C = Ok C'
               /\ length C' = length C.
Proof.
  intros Hk HV. induction items as [| [i time] items IH]; intros C HF.
  - exists C. split; reflexivity.
  - inversion HF as [| ? ? Hi HF']; subst. simpl in Hi.
    destruct (infusion_step_length R_inf V k T_inf i time C Hk HV Hi) as (C1 & E1 & L1).
    cbn [for_each]. rewrite E1. cbn [bind].
    destruct (IH C1) as (C2 & E2 & L2).
    { rewrite L1. exact HF'. }
    exists C2. split; [exact E2 | congruence].
Qed.

Lemma enumerate_indices {A} (l : list A) :
  Forall (fun it : nat * A => (fst it < length l)%nat) (enumerate l).
Proof.
  apply Forall_forall. intros [i x] Hin. simpl.
  unfold enumerate in Hin. apply in_combine_l in Hin.
  apply in_seq in Hin. lia.
Qed.


(** ** The arrays as objects *)

Lemma get_old {A} (h : Np.store A) (a : list A) (p : nat) :
  (p < length h)%nat -> Np.get (h ++ [a]) p = Np.get h p.
Proof. intros Hp. unfold Np.get. apply app_nth1. exact Hp. Qed.

Lemma get_new {A} (h : Np.store A) (a : list A) :
  Np.get (h ++ [a]) (length h) = a.
Proof. unfold Np.get. apply nth_middle. Qed.

Lemma put_new {A} (h : Np.store A) (a b : list A) :
  Np.put (h ++ [a]) (length h) b = h ++ [b].
Proof.
  induction h as [| x h IH]; cbn [app length Np.put]; [reflexivity |].
  rewrite IH. reflexivity.
Qed.

Lemma enumerate_by_index (l : list R) :
  enumerate l = map (fun i => (i, nth i l 0)) (seq 0 (length l)).
Proof.
  unfold enumerate.
  enough (G : forall (pre : list R),
             combine (seq (length pre) (length l)) l
             = map (fun i => (i, nth i (pre ++ l) 0)) (seq (length pre) (length l))).
  { exact (G []). }
  induction l as [| x l IH]; intros pre; cbn [length seq combine map];
    [reflexivity |].
  rewrite nth_middle. f_equal.
  specialize (IH (pre ++ [x])). rewrite length_app in IH. cbn [length] in IH.
  rewrite Nat.add_1_r in IH. rewrite <- app_assoc in IH. exact IH.
Qed.

(** The loop over the store writes into the new array only, and what it
    writes is what the loop over the values computes. *)
Lemma infusion_passes (R_inf V k T_inf : R) (h : Np.store R) (t : nat) :
  (t < length h)%nat ->
  forall (idxs : list nat) (arr : list R),
    for_each idxs (infusion_pass R_inf V k T_inf t (length h)) (h ++ [arr])
    = match for_each (map (fun i => (i, nth i (Np.get h t) 0)) idxs)
                     (infusion_step R_inf V k T_inf) arr with
      | Ok arr' => Ok (h ++ [arr'])
      | Raise e => Raise e
      end.
Proof.
  intros Ht. induction idxs as [| i idxs IH]; intros arr;
    cbn [for_each map]; [reflexivity |].
  unfold infusion_pass at 1. rewrite (get_old h arr t Ht), get_new.
  destruct (infusion_step R_inf V k T_inf (i, nth i (Np.get h t) 0) arr)
    as [arr1 | e]; cbn [bind]; [| reflexivity].
  rewrite put_new. apply IH.
Qed.

Lemma infusion_in_store (R_inf V k T_inf : R) (h : Np.store R) (t : nat) :
  (t < length h)%nat ->
  one_compartment_infusion_in h t R_inf V k T_inf
  = match one_compartment_infusion (Np.get h t) R_inf V k T_inf with
    | Ok C => Ok (h ++ [C], length h)
    | Raise e => Raise e
    end.
Proof.
  intros Ht. unfold one_compartment_infusion_in, one_compartment_infusion, Np.new.
  rewrite (infusion_passes R_inf V k T_inf h t Ht).
  rewrite <- enumerate_by_index.
  destruct (for_each (enumerate (Np.get h t)) (infusion_step R_inf V k T_inf)
                     (Np.zeros_like (Np.get h t))); reflexivity.
Qed.


Lemma euler_from_length (f : float * float -> float -> float * float)
      (ts : list float) :
  forall y t0, length (Binary64.euler_from f y t0 ts) = length ts.
Proof.
  induction ts as [| t1 ts IH]; intros y t0; simpl; [reflexivity |].
  destruct (f y t0) as [d1 d2]. simpl. rewrite IH. reflexivity.
Qed.

Lemma EulerSolver_contract : Binary64.OdeSolverContract Binary64.EulerSolver.
Proof.
  constructor; cbn [Binary64.odeint Binary64.EulerSolver].
  - intros f y0 t rows. destruct (Binary64.monotonic t); [| discriminate].
    intros E. injection E as <-. destruct t as [| t0 ts]; simpl; [reflexivity |].
    rewrite euler_from_length. reflexivity.
  - intros f y0 t _ Hm. rewrite Hm. eexists. reflexivity.
  - intros f y0 t Hm. rewrite Hm. reflexivity.
Defined.


End PKFacts.

Module IonizationFacts.
Import Py PyFacts Ionization.
Local Open Scope R_scope.

(** C7. For every pKa, an acid at pH = pKa is ionized to the fraction 0.5
    exactly: 1 / (1 + 10^(pKa - pH)) with pH = pKa. *)
Theorem ionization_half_at_pKa :
  forall pKa : R, calculate_ionization pKa pKa true = Ok 0.5.
Proof.
  intros pKa. unfold calculate_ionization.
  replace (pKa - pKa) with 0 by lra. rewrite pow10_0.
  rewrite truediv_ok by lra. f_equal. lra.
Qed.

(** The base branch has the same value at pH = pKa. *)
Lemma ionization_half_at_pKa_base (pKa : R) :
  calculate_ionization pKa pKa false = Ok 0.5.
Proof.
  unfold calculate_ionization.
  replace (pKa - pKa) with 0 by lra. rewrite pow10_0.
  rewrite truediv_ok by lra. f_equal. lra.
Qed.

End IonizationFacts.

Module PhysicalPharmacyFacts.
Import Py PyFacts PhysicalPharmacy.
Local Open Scope R_scope.

Lemma buffer_capacity_value (ka C ph : R) :
  0 < ka ->
  calculate_buffer_capacity ka C ph
  = Ok (2.303 * C * (ka * pow10 (- ph) / (ka + pow10 (- ph)) ^ 2)).
Proof.
  intros Ha. unfold calculate_buffer_capacity.
  pose proof (pow10_pos (- ph)) as Hh.
  rewrite truediv_ok by nra. f_equal. field. nra.
Qed.

(** The capacity as a function of the hydrogen-ion concentration [h] has
    the shape a*h / (a+h)^2, which compares two concentrations by the sign
    of (h1 - h2) * (a^2 - h1*h2). *)
Lemma shape_lt (a h1 h2 : R) :
  0 < a -> 0 < h1 -> 0 < h2 ->
  (h1 - h2) * (a * a - h1 * h2) < 0 ->
  a * h1 / (a + h1) ^ 2 < a * h2 / (a + h2) ^ 2.
Proof.
  intros Ha H1 H2 Hs.
  assert (D1 : 0 < (a + h1) ^ 2) by nra.
  assert (D2 : 0 < (a + h2) ^ 2) by nra.
  apply Rminus_lt.
  replace (a * h1 / (a + h1) ^ 2 - a * h2 / (a + h2) ^ 2)
    with (a * ((h1 - h2) * (a * a - h1 * h2))
          * / ((a + h1) ^ 2 * (a + h2) ^ 2))
    by (field; nra).
  assert (Hi : 0 < / ((a + h1) ^ 2 * (a + h2) ^ 2)).
  { apply Rinv_0_lt_compat. apply Rmult_lt_0_compat; assumption. }
  assert (Hn : a * ((h1 - h2) * (a * a - h1 * h2)) < 0) by nra.
  nra.
Qed.

Lemma below_peak_sign (a lo hi : R) :
  0 < lo -> lo < hi -> hi <= a -> (lo - hi) * (a * a - lo * hi) < 0.
Proof.
  intros H0 H1 H2.
  assert (Y : 0 < a * a - lo * hi) by nra.
  assert (X : lo - hi < 0) by lra.
  nra.
Qed.

Lemma above_peak_sign (a lo hi : R) :
  0 < a -> a <= lo -> lo < hi -> (hi - lo) * (a * a - hi * lo) < 0.
Proof.
  intros H0 H1 H2.
  assert (Y : a * a - hi * lo < 0) by nra.
  assert (X : 0 < hi - lo) by lra.
  nra.
Qed.



End PhysicalPharmacyFacts.

Module ReleaseFacts.
Import Release.
Local Open Scope R_scope.

(** C10. The zero-order release is min(k*t, M0) at every time point of the
    array, that is k*t while k*t stays within the load and M0 from then on;
    so no element exceeds the total load M0.  (This holds for all real
    t, k and M0, in particular for the non-negative ones.) *)
Theorem zero_order_release_capped :
  forall (t : Np.ndarray) (k M0 : R),
    zero_order_release t k M0 = map (fun ti => Rmin (k * ti) M0) t
    /\ length (zero_order_release t k M0) = length t
    /\ Forall (fun released => released <= M0) (zero_order_release t k M0)
    /\ (forall i,
          nth i (zero_order_release t k M0) 0
          = if (i <? length t)%nat
            then (if Rle_dec (k * nth i t 0) M0 then k * nth i t 0 else M0)
            else 0).
Proof.
  intros t k M0.
  assert (E : zero_order_release t k M0 = map (fun ti => Rmin (k * ti) M0) t).
  { unfold zero_order_release, Np.minimum, Np.smul. rewrite map_map.
    apply map_ext. intros ti. unfold Rmin.
    destruct (Rlt_dec (k * ti) M0), (Rle_dec (k * ti) M0); lra. }
  split; [exact E |]. rewrite E.
  split; [apply length_map |].
  split.
  - apply Forall_forall. intros x Hin. apply in_map_iff in Hin.
    destruct Hin as (ti & <- & _). apply Rmin_r.
  - intros i. destruct (Nat.ltb_spec i (length t)) as [Hi | Hi].
    + rewrite (nth_indep _ 0 ((fun ti => Rmin (k * ti) M0) 0))
        by (rewrite length_map; exact Hi).
      rewrite (map_nth (fun ti => Rmin (k * ti) M0)).
      unfold Rmin. reflexivity.
    + apply nth_overflow. rewrite length_map. exact Hi.
Qed.

End ReleaseFacts.

(* ================================================================== *)
(** * Properties of binary64 arithmetic and of the formulas in it *)
(* ================================================================== *)

Module IEEE754Facts.
Import IEEE754.
Local Open Scope Z_scope.

Lemma iter_pos_nat {A} (f : A -> A) (p : positive) (x : A) :
  iter_pos f p x = Nat.iter (Pos.to_nat p) f x.
Proof.
  revert x. induction p as [p IH | p IH |]; intros x; cbn [iter_pos].
  - rewrite !IH. rewrite Pos2Nat.inj_xI.
    replace (S (2 * Pos.to_nat p))%nat with (Pos.to_nat p + (Pos.to_nat p + 1))%nat by lia.
    rewrite !Nat.iter_add. reflexivity.
  - rewrite !IH. rewrite Pos2Nat.inj_xO.
    replace (2 * Pos.to_nat p)%nat with (Pos.to_nat p + Pos.to_nat p)%nat by lia.
    rewrite Nat.iter_add. reflexivity.
  - reflexivity.
Qed.

Lemma shr_1_nonneg (m : Z) (r s : bool) :
  0 <= m ->
  shr_1 (Build_shr_record m r s) = Build_shr_record (m / 2) (Z.odd m) (r || s).
Proof.
  intros Hm. rewrite <- Z.div2_div.
  destruct m as [| p | p]; [reflexivity | | lia].
  destruct p; reflexivity.
Qed.

(** After [n + 1] shifts. *)
Lemma shr_iter (m : Z) (n : nat) :
  0 <= m ->
  Nat.iter (S n) shr_1 (Build_shr_record m false false)
  = Build_shr_record (m / 2 ^ Z.of_nat (S n)) (Z.odd (m / 2 ^ Z.of_nat n))
                     (negb (m mod 2 ^ Z.of_nat n =? 0)).
Proof.
  intros Hm. induction n as [| n IH].
  - cbn [Nat.iter]. rewrite shr_1_nonneg by exact Hm.
    change (2 ^ Z.of_nat 1) with 2. change (2 ^ Z.of_nat 0) with 1.
    rewrite Z.div_1_r, Z.mod_1_r. reflexivity.
  - change (Nat.iter (S (S n)) shr_1 ?x) with (shr_1 (Nat.iter (S n) shr_1 x)).
    rewrite IH. rewrite shr_1_nonneg.
    2:{ apply Z.div_pos; [exact Hm | apply Z.pow_pos_nonneg; lia]. }
    f_equal.
    + rewrite Z.div_div by (try apply Z.pow_pos_nonneg; lia).
      f_equal. rewrite (Nat2Z.inj_succ (S n)). rewrite Z.pow_succ_r by lia. lia.
    + assert (P : 0 < 2 ^ Z.of_nat n) by (apply Z.pow_pos_nonneg; lia).
      assert (E : 2 ^ Z.of_nat (S n) = 2 ^ Z.of_nat n * 2)
        by (rewrite Nat2Z.inj_succ, Z.pow_succ_r by lia; lia).
      rewrite E.
      (* m mod (2*2^n) = m mod 2^n + 2^n * ((m / 2^n) mod 2) *)
      rewrite Z.rem_mul_r by lia.
      pose proof (Zmod_odd (m / 2 ^ Z.of_nat n)) as O.
      pose proof (Z.mod_pos_bound m (2 ^ Z.of_nat n) P) as B1.
      destruct (Z.odd (m / 2 ^ Z.of_nat n)); rewrite O;
      destruct (Z.eqb_spec (m mod 2 ^ Z.of_nat n) 0) as [E0 | E0];
      match goal with |- context [?a =? 0] =>
        destruct (Z.eqb_spec a 0) as [E2 | E2] end;
      cbn; try reflexivity; try lia.
Qed.

Lemma shr_exact (m e n : Z) :
  0 <= m ->
  shr (Build_shr_record m false false) e n
  = if 0 <? n
    then (Build_shr_record (m / 2 ^ n) (Z.odd (m / 2 ^ (n - 1)))
                           (negb (m mod 2 ^ (n - 1) =? 0)), e + n)
    else (Build_shr_record m false false, e).
Proof.
  intros Hm. unfold shr. destruct n as [| p | p]; try reflexivity.
  change (0 <? Z.pos p) with true. cbn iota.
  rewrite iter_pos_nat.
  destruct (Pos2Nat.is_succ p) as [k Hk]. rewrite Hk.
  rewrite (shr_iter m k Hm).
  assert (E1 : Z.of_nat (S k) = Z.pos p) by (rewrite <- Hk; apply positive_nat_Z).
  assert (E2 : Z.of_nat k = Z.pos p - 1) by lia.
  rewrite E1, E2. reflexivity.
Qed.

Lemma rne_div_0 (m : Z) : rne_div m 0 = m.
Proof.
  unfold rne_div. change (2 ^ 0) with 1. rewrite Z.mod_1_r, Z.div_1_r. reflexivity.
Qed.

(** The first rounding step of [binary_round_aux] on an exact input. *)
Lemma round_shr (m e n : Z) :
  0 <= m ->
  let mrs := fst (shr (Build_shr_record m false false) e n) in
  round_nearest_even (shr_m mrs) (loc_of_shr_record mrs) = rne_div m (Z.max 0 n)
  /\ snd (shr (Build_shr_record m false false) e n) = e + Z.max 0 n.
Proof.
  intros Hm. rewrite (shr_exact m e n Hm).
  destruct (Z.ltb_spec 0 n) as [Hn | Hn]; cbn zeta; cbn [fst snd shr_m].
  - rewrite Z.max_r by lia. split; [| reflexivity].
    unfold rne_div.
    assert (P : 0 < 2 ^ (n - 1)) by (apply Z.pow_pos_nonneg; lia).
    assert (E : 2 ^ n = 2 ^ (n - 1) * 2).
    { replace n with (Z.succ (n - 1)) at 1 by lia. rewrite Z.pow_succ_r by lia. lia. }
    replace (m mod 2 ^ n) with (m mod (2 ^ (n - 1) * 2)) by (rewrite E; reflexivity).
    rewrite Z.rem_mul_r by lia.
    pose proof (Zmod_odd (m / 2 ^ (n - 1))) as O.
    pose proof (Z.mod_pos_bound m (2 ^ (n - 1)) P) as B1.
    set (rem := m mod 2 ^ (n - 1)) in *.
    assert (C : (2 * (rem + 2 ^ (n - 1) * ((m / 2 ^ (n - 1)) mod 2))
                 ?= 2 ^ n)
                = if Z.odd (m / 2 ^ (n - 1))
                  then (if rem =? 0 then Eq else Gt) else Lt).
    { destruct (Z.odd (m / 2 ^ (n - 1))); rewrite O;
        destruct (Z.eqb_spec rem 0);
        match goal with |- (?a ?= ?b) = _ =>
          destruct (Z.compare_spec a b) end; try reflexivity; lia. }
    rewrite C.
    destruct (Z.odd (m / 2 ^ (n - 1))); destruct (Z.eqb_spec rem 0);
      reflexivity.
  - rewrite Z.max_l by lia. rewrite Z.add_0_r. split; [| reflexivity].
    cbn. symmetry. apply rne_div_0.
Qed.

(** ** Rounding an exact value *)

Lemma rne_div_nonneg (a n : Z) : 0 <= a -> 0 <= n -> 0 <= rne_div a n.
Proof.
  intros Ha Hn. unfold rne_div.
  assert (P : 0 < 2 ^ n) by (apply Z.pow_pos_nonneg; lia).
  pose proof (Z.div_pos a (2 ^ n) Ha P).
  destruct (_ ?= _); [destruct (Z.even _) | |]; lia.
Qed.

Lemma binary_round_aux_exact (s : bool) (m : positive) (e : Z) :
  binary_round_aux prec emax s (Zpos m) e loc_Exact
  = let n1 := Z.max 0 (fexp prec emax (Zdigits2 (Zpos m) + e) - e) in
    let M := rne_div (Zpos m) n1 in
    let e1 := e + n1 in
    let n2 := Z.max 0 (fexp prec emax (Zdigits2 M + e1) - e1) in
    match M / 2 ^ n2 with
    | Z0 => S754_zero s
    | Zpos p =>
        if e1 + n2 <=? emax - prec then S754_finite s p (e1 + n2)
        else S754_infinity s
    | Zneg _ => S754_nan
    end.
Proof.
  cbv zeta. unfold binary_round_aux, shr_fexp.
  change (shr_record_of_loc (Z.pos m) loc_Exact)
    with (Build_shr_record (Z.pos m) false false).
  destruct (round_shr (Z.pos m) e
              (fexp prec emax (Zdigits2 (Z.pos m) + e) - e) ltac:(lia)) as [R1 R2].
  destruct (shr (Build_shr_record (Z.pos m) false false) e
                (fexp prec emax (Zdigits2 (Z.pos m) + e) - e)) as [mrs1 e1].
  cbn [fst snd] in R1, R2. rewrite R1, R2.
  set (M := rne_div (Z.pos m) (Z.max 0 (fexp prec emax (Zdigits2 (Z.pos m) + e) - e))).
  assert (HM : 0 <= M) by (apply rne_div_nonneg; lia).
  set (e1' := e + Z.max 0 (fexp prec emax (Zdigits2 (Z.pos m) + e) - e)).
  change (shr_record_of_loc M loc_Exact) with (Build_shr_record M false false).
  rewrite (shr_exact M e1' _ HM).
  set (n2 := fexp prec emax (Zdigits2 M + e1') - e1').
  destruct (Z.ltb_spec 0 n2) as [Hn | Hn]; cbn [shr_m].
  - rewrite Z.max_r by lia. reflexivity.
  - rewrite Z.max_l by lia. change (2 ^ 0) with 1. rewrite Z.div_1_r, Z.add_0_r.
    reflexivity.
Qed.

Lemma digits_bounds (m : positive) :
  2 ^ (Zpos (digits2_pos m) - 1) <= Zpos m < 2 ^ Zpos (digits2_pos m).
Proof.
  induction m as [m IH | m IH |]; cbn [digits2_pos].
  - rewrite Pos2Z.inj_succ.
    replace (Z.succ (Z.pos (digits2_pos m)) - 1) with (Z.succ (Z.pos (digits2_pos m) - 1)) by lia.
    rewrite !Z.pow_succ_r by lia. lia.
  - rewrite Pos2Z.inj_succ.
    replace (Z.succ (Z.pos (digits2_pos m)) - 1) with (Z.succ (Z.pos (digits2_pos m) - 1)) by lia.
    rewrite !Z.pow_succ_r by lia. lia.
  - cbn. lia.
Qed.

Lemma digits_log2 (m : positive) : Zpos (digits2_pos m) = Z.log2 (Zpos m) + 1.
Proof.
  pose proof (digits_bounds m) as B.
  assert (E : Z.log2 (Zpos m) = Zpos (digits2_pos m) - 1).
  { apply Z.log2_unique; [lia |].
    replace (Z.succ (Z.pos (digits2_pos m) - 1)) with (Z.pos (digits2_pos m)) by lia.
    exact B. }
  lia.
Qed.

Lemma rne_div_lower (a n B : Z) :
  0 <= n -> B * 2 ^ n <= a -> B <= rne_div a n.
Proof.
  intros Hn H. unfold rne_div.
  assert (P : 0 < 2 ^ n) by (apply Z.pow_pos_nonneg; lia).
  assert (Q : B <= a / 2 ^ n) by (apply Z.div_le_lower_bound; lia).
  destruct (_ ?= _); [destruct (Z.even _) | |]; lia.
Qed.

Lemma rne_div_upper (a n B : Z) :
  0 <= n -> a < B * 2 ^ n -> rne_div a n <= B.
Proof.
  intros Hn H. unfold rne_div.
  assert (P : 0 < 2 ^ n) by (apply Z.pow_pos_nonneg; lia).
  assert (Q : a / 2 ^ n < B) by (apply Z.div_lt_upper_bound; lia).
  destruct (_ ?= _); [destruct (Z.even _) | |]; lia.
Qed.

Lemma rne_div_mono (a b n : Z) :
  0 <= n -> a <= b -> rne_div a n <= rne_div b n.
Proof.
  intros Hn H. unfold rne_div.
  assert (P : 0 < 2 ^ n) by (apply Z.pow_pos_nonneg; lia).
  pose proof (Z.div_le_mono a b (2 ^ n) P H) as Q.
  pose proof (Z.div_mod a (2 ^ n) ltac:(lia)) as Da.
  pose proof (Z.div_mod b (2 ^ n) ltac:(lia)) as Db.
  pose proof (Z.mod_pos_bound a (2 ^ n) P) as Ba.
  pose proof (Z.mod_pos_bound b (2 ^ n) P) as Bb.
  destruct (Z.eq_dec (a / 2 ^ n) (b / 2 ^ n)) as [E | N].
  - rewrite <- E in *.
    assert (R : a mod 2 ^ n <= b mod 2 ^ n) by lia.
    destruct (Z.compare_spec (2 * (a mod 2 ^ n)) (2 ^ n));
      destruct (Z.compare_spec (2 * (b mod 2 ^ n)) (2 ^ n));
      destruct (Z.even (a / 2 ^ n)); lia.
  - assert (a / 2 ^ n + 1 <= b / 2 ^ n) by lia.
    destruct (2 * (a mod 2 ^ n) ?= 2 ^ n); destruct (2 * (b mod 2 ^ n) ?= 2 ^ n);
      destruct (Z.even (a / 2 ^ n)); destruct (Z.even (b / 2 ^ n)); lia.
Qed.

Lemma rne_div_scale (a n j : Z) :
  0 <= n -> 0 <= j -> rne_div (a * 2 ^ j) (n + j) = rne_div a n.
Proof.
  intros Hn Hj. unfold rne_div.
  assert (Pn : 0 < 2 ^ n) by (apply Z.pow_pos_nonneg; lia).
  assert (Pj : 0 < 2 ^ j) by (apply Z.pow_pos_nonneg; lia).
  rewrite Z.pow_add_r by lia.
  rewrite Z.div_mul_cancel_r by lia.
  rewrite Z.mul_mod_distr_r by lia.
  replace (2 * (a mod 2 ^ n * 2 ^ j)) with (2 * (a mod 2 ^ n) * 2 ^ j) by lia.
  assert (C : (2 * (a mod 2 ^ n) * 2 ^ j ?= 2 ^ n * 2 ^ j)
              = (2 * (a mod 2 ^ n) ?= 2 ^ n)).
  { destruct (Z.compare_spec (2 * (a mod 2 ^ n)) (2 ^ n));
      destruct (Z.compare_spec (2 * (a mod 2 ^ n) * 2 ^ j) (2 ^ n * 2 ^ j));
      try reflexivity; nia. }
  rewrite C. reflexivity.
Qed.

Lemma rv_mono (A1 A2 : Z) : 0 < A1 -> A1 <= A2 -> rv A1 <= rv A2.
Proof.
  intros H1 H12. unfold rv.
  assert (L : Z.log2 A1 <= Z.log2 A2) by (apply Z.log2_le_mono; exact H12).
  assert (K1 : 0 <= Kexp A1) by (unfold Kexp, OFF; lia).
  assert (K2 : 0 <= Kexp A2) by (unfold Kexp, OFF; lia).
  destruct (Z.eq_dec (Kexp A1) (Kexp A2)) as [E | N].
  - rewrite <- E. apply Z.mul_le_mono_nonneg_r; [apply Z.pow_nonneg; lia |].
    apply rne_div_mono; [exact K1 | exact H12].
  - assert (Hlt : Kexp A1 + 1 <= Kexp A2) by (unfold Kexp in *; lia).
    assert (E2 : Kexp A2 = Z.log2 A2 - 52) by (unfold Kexp in *; lia).
    pose proof (Z.log2_spec A1 H1) as S1.
    pose proof (Z.log2_spec A2 ltac:(lia)) as S2.
    assert (U : rne_div A1 (Kexp A1) <= 2 ^ 53).
    { apply rne_div_upper; [exact K1 |].
      rewrite <- Z.pow_add_r by lia.
      apply Z.lt_le_trans with (2 ^ Z.succ (Z.log2 A1)); [lia |].
      apply Z.pow_le_mono_r; [lia |]. unfold Kexp. lia. }
    assert (D : 2 ^ 52 <= rne_div A2 (Kexp A2)).
    { apply rne_div_lower; [exact K2 |].
      rewrite <- Z.pow_add_r by lia.
      replace (52 + Kexp A2) with (Z.log2 A2) by lia. lia. }
    apply Z.le_trans with (2 ^ 53 * 2 ^ Kexp A1).
    { apply Z.mul_le_mono_nonneg_r; [apply Z.pow_nonneg; lia | exact U]. }
    apply Z.le_trans with (2 ^ 52 * 2 ^ Kexp A2).
    { rewrite <- !Z.pow_add_r by lia. apply Z.pow_le_mono_r; lia. }
    apply Z.mul_le_mono_nonneg_r; [apply Z.pow_nonneg; lia | exact D].
Qed.

Lemma fexp_eq (x : Z) : fexp prec emax x = Z.max (x - 53) (-1074).
Proof. reflexivity. Qed.

Lemma Zdigits2_log2 (M : Z) : 0 < M -> Zdigits2 M = Z.log2 M + 1.
Proof.
  intros HM. destruct M as [| p | p]; try lia. cbn [Zdigits2]. apply digits_log2.
Qed.

Lemma pow2_split (a b : Z) : 0 <= a -> 0 <= b -> 2 ^ (a + b) = 2 ^ a * 2 ^ b.
Proof. intros. apply Z.pow_add_r; assumption. Qed.

Lemma binary_round_aux_val (m : positive) (e : Z) :
  - OFF <= e -> e <= fexp prec emax (Zdigits2 (Zpos m) + e) ->
  SFnonneg (binary_round_aux prec emax false (Zpos m) e loc_Exact) = true
  /\ SFv (binary_round_aux prec emax false (Zpos m) e loc_Exact)
     = Z.min (rv (Zpos m * 2 ^ (e + OFF))) INF.
Proof.
  intros He Hp. rewrite binary_round_aux_exact. cbv zeta.
  rewrite (Zdigits2_log2 (Zpos m)) by lia.
  rewrite !fexp_eq. rewrite fexp_eq in Hp.
  rewrite (Zdigits2_log2 (Zpos m)) in Hp by lia.
  set (l := Z.log2 (Zpos m)) in *.
  set (e1 := Z.max (l + 1 + e - 53) (-1074)) in *.
  rewrite (Z.max_r 0 (e1 - e)) by lia.
  replace (e + (e1 - e)) with e1 by lia.
  set (M := rne_div (Zpos m) (e1 - e)).
  assert (HM0 : 0 <= M) by (apply rne_div_nonneg; lia).
  pose proof (Z.log2_spec (Zpos m) ltac:(lia)) as Sm. fold l in Sm.
  assert (Hl : 0 <= l) by (apply Z.log2_nonneg).
  (* the value being rounded *)
  assert (HA : rv (Zpos m * 2 ^ (e + OFF)) = M * 2 ^ (e1 + OFF)).
  { unfold rv, Kexp. rewrite Z.log2_mul_pow2 by (unfold OFF in *; lia). fold l.
    replace (Z.max (e + OFF + l - 52) (OFF - 1074)) with ((e1 - e) + (e + OFF))
      by (unfold e1; lia).
    rewrite rne_div_scale by (unfold OFF in *; lia).
    replace (e1 - e + (e + OFF)) with (e1 + OFF) by lia. reflexivity. }
  assert (HMu : M <= 2 ^ 53).
  { apply rne_div_upper; [lia |]. rewrite <- Z.pow_add_r by lia.
    apply Z.lt_le_trans with (2 ^ Z.succ l); [lia |].
    apply Z.pow_le_mono_r; lia. }
  assert (HMl : -1074 < e1 -> 2 ^ 52 <= M).
  { intros H. apply rne_div_lower; [lia |]. rewrite <- Z.pow_add_r by lia.
    replace (52 + (e1 - e)) with l by lia. lia. }
  assert (P53 : 2 ^ 53 * 2 ^ (971 + OFF) = INF) by reflexivity.
  assert (Pow : forall a b, 0 <= a -> a <= b -> 2 ^ a <= 2 ^ b)
    by (intros; apply Z.pow_le_mono_r; lia).
  assert (E1 : -1074 <= e1) by (unfold e1; lia).
  rewrite HA.
  destruct (Z.eq_dec M 0) as [Z0 | NZ].
  - rewrite Z0. rewrite Z.div_0_l by (apply Z.pow_nonzero; lia).
    split; [reflexivity |]. cbn [SFv]. rewrite Z.mul_0_l. unfold INF. lia.
  - assert (HMp : 0 < M) by lia.
    rewrite (Zdigits2_log2 M HMp).
    pose proof (Z.log2_spec M HMp) as SM.
    destruct (Z.eq_dec M (2 ^ 53)) as [Top | NTop].
    + (* the mantissa carried into the next binade *)
      rewrite Top. change (Z.log2 (2 ^ 53)) with 53.
      replace (Z.max 0 (Z.max (53 + 1 + e1 - 53) (-1074) - e1)) with 1 by lia.
      change (2 ^ 53 / 2 ^ 1) with (2 ^ 52). change (2 ^ 52) with (Zpos (2 ^ 52)).
      cbn iota.
      destruct (Z.leb_spec (e1 + 1) (emax - prec)) as [Le | Gt];
        (split; [reflexivity |]); cbn [SFv].
      * change (emax - prec) with 971 in Le.
        change (Zpos (2 ^ 52)) with (2 ^ 52).
        replace (e1 + 1 + OFF) with (1 + (e1 + OFF)) by lia.
        rewrite (pow2_split 1 (e1 + OFF)) by (unfold OFF; lia).
        change (2 ^ 53) with (2 ^ 52 * 2 ^ 1).
        assert (2 ^ (e1 + OFF) <= 2 ^ (970 + OFF)) by (apply Pow; unfold OFF; lia).
        assert (2 ^ 52 * 2 ^ 1 * 2 ^ (970 + OFF) < INF) by reflexivity.
        nia.
      * change (emax - prec) with 971 in Gt.
        assert (2 ^ (971 + OFF) <= 2 ^ (e1 + OFF)) by (apply Pow; unfold OFF; lia).
        rewrite Z.min_r; [reflexivity |]. rewrite <- P53. nia.
    + assert (HMlt : M < 2 ^ 53) by lia.
      assert (Hlog : Z.log2 M < 53).
      { apply Z.log2_lt_pow2; [exact HMp | exact HMlt]. }
      replace (Z.max 0 (Z.max (Z.log2 M + 1 + e1 - 53) (-1074) - e1)) with 0 by lia.
      change (2 ^ 0) with 1. rewrite Z.div_1_r, Z.add_0_r.
      destruct M as [| p | p]; try lia.
      destruct (Z.leb_spec e1 (emax - prec)) as [Le | Gt];
        (split; [reflexivity |]); cbn [SFv].
      * change (emax - prec) with 971 in Le.
        assert (2 ^ (e1 + OFF) <= 2 ^ (971 + OFF)) by (apply Pow; unfold OFF; lia).
        assert (0 < 2 ^ (e1 + OFF)) by (apply Z.pow_pos_nonneg; unfold OFF; lia).
        rewrite Z.min_l; [reflexivity |]. rewrite <- P53. nia.
      * change (emax - prec) with 971 in Gt.
        assert (2 ^ (972 + OFF) <= 2 ^ (e1 + OFF)) by (apply Pow; unfold OFF; lia).
        assert (2 ^ 52 * 2 ^ (972 + OFF) = INF) by reflexivity.
        specialize (HMl ltac:(lia)).
        rewrite Z.min_r; [reflexivity |]. nia.
Qed.

(** ** The order of valid floats and their values *)

Lemma bounded_facts (m : positive) (e : Z) :
  bounded prec emax m e = true ->
  -1074 <= e <= 971 /\ Zpos m < 2 ^ 53 /\ (-1074 < e -> 2 ^ 52 <= Zpos m).
Proof.
  unfold bounded, canonical_mantissa. rewrite fexp_eq.
  intros H. apply andb_prop in H. destruct H as [C B].
  apply Z.eqb_eq in C. apply Z.leb_le in B. change (emax - prec) with 971 in B.
  pose proof (digits_bounds m) as D.
  set (d := Zpos (digits2_pos m)) in *.
  assert (Hd : d <= 53) by lia.
  split; [lia |]. split.
  - apply Z.lt_le_trans with (2 ^ d); [lia |]. apply Z.pow_le_mono_r; lia.
  - intros He. assert (d = 53) by lia. subst d.
    replace (2 ^ 52) with (2 ^ (Zpos (digits2_pos m) - 1)); [lia |].
    f_equal. lia.
Qed.

Lemma SFv_finite_lt_INF (s : bool) (m : positive) (e : Z) :
  bounded prec emax m e = true -> 0 < SFv (S754_finite s m e) < INF.
Proof.
  intros B. destruct (bounded_facts m e B) as (He & Hm & _). cbn [SFv].
  assert (0 < 2 ^ (e + OFF)) by (apply Z.pow_pos_nonneg; unfold OFF; lia).
  assert (2 ^ (e + OFF) <= 2 ^ (971 + OFF)) by (apply Z.pow_le_mono_r; unfold OFF; lia).
  assert (2 ^ 53 * 2 ^ (971 + OFF) = INF) by reflexivity.
  nia.
Qed.

Lemma SFv_exp_lt (m1 m2 : positive) (e1 e2 : Z) :
  bounded prec emax m1 e1 = true -> bounded prec emax m2 e2 = true ->
  e1 < e2 -> Zpos m1 * 2 ^ (e1 + OFF) < Zpos m2 * 2 ^ (e2 + OFF).
Proof.
  intros B1 B2 H.
  destruct (bounded_facts m1 e1 B1) as (He1 & Hm1 & _).
  destruct (bounded_facts m2 e2 B2) as (He2 & _ & Hm2).
  specialize (Hm2 ltac:(lia)).
  assert (P1 : 0 < 2 ^ (e1 + OFF)) by (apply Z.pow_pos_nonneg; unfold OFF; lia).
  assert (2 ^ (e1 + 1 + OFF) <= 2 ^ (e2 + OFF)) by (apply Z.pow_le_mono_r; unfold OFF; lia).
  assert (2 ^ (e1 + 1 + OFF) = 2 * 2 ^ (e1 + OFF)).
  { replace (e1 + 1 + OFF) with (Z.succ (e1 + OFF)) by lia.
    apply Z.pow_succ_r. unfold OFF; lia. }
  change (2 ^ 53) with (2 * 2 ^ 52) in Hm1.
  nia.
Qed.

Lemma INF_pos : 0 < INF.
Proof. reflexivity. Qed.

Ltac finite_bounds :=
  pose proof INF_pos;
  repeat match goal with
  | H : bounded prec emax ?m ?e = true |- _ =>
      lazymatch goal with
      | _ : 0 < SFv (S754_finite false m e) < INF |- _ => fail
      | _ => pose proof (SFv_finite_lt_INF false m e H)
      end
  end.

Lemma SFleb_finite (mx my : positive) (ex ey : Z) :
  bounded prec emax mx ex = true -> bounded prec emax my ey = true ->
  (SFleb (S754_finite false mx ex) (S754_finite false my ey) = true
   <-> Zpos mx * 2 ^ (ex + OFF) <= Zpos my * 2 ^ (ey + OFF)).
Proof.
  intros Vx Vy. unfold SFleb, SFcompare.
  assert (P : 0 < 2 ^ (ex + OFF)).
  { destruct (bounded_facts mx ex Vx) as (He & _). apply Z.pow_pos_nonneg; unfold OFF; lia. }
  destruct (Z.compare_spec ex ey) as [E | L | G].
  - subst ey. rewrite Pos.compare_cont_spec. cbn [Pos.switch_Eq].
    destruct (Pos.compare_spec mx my); split; intros; try reflexivity;
      try discriminate; nia.
  - pose proof (SFv_exp_lt mx my ex ey Vx Vy L). split; intros; [lia | reflexivity].
  - pose proof (SFv_exp_lt my mx ey ex Vy Vx G). split; intros; [discriminate | lia].
Qed.

Lemma SFleb_of_val (x y : spec_float) :
  valid_binary x = true -> valid_binary y = true ->
  SFnonneg x = true -> SFnonneg y = true ->
  SFv x <= SFv y -> SFleb x y = true.
Proof.
  intros Vx Vy Nx Ny H.
  destruct x as [sx | sx | | sx mx ex]; destruct y as [sy | sy | | sy my ey];
    cbn [SFnonneg] in Nx, Ny; try discriminate;
    try (destruct sx; try discriminate); try (destruct sy; try discriminate);
    try reflexivity; cbn [valid_binary] in Vx, Vy;
    try (apply SFleb_finite; assumption);
    finite_bounds; cbn [SFv] in *; lia.
Qed.

Lemma val_of_SFleb (x y : spec_float) :
  valid_binary x = true -> valid_binary y = true ->
  SFnonneg x = true -> SFleb x y = true ->
  SFnonneg y = true /\ SFv x <= SFv y.
Proof.
  intros Vx Vy Nx H.
  destruct x as [sx | sx | | sx mx ex]; destruct y as [sy | sy | | sy my ey];
    cbn [SFnonneg] in Nx |- *; try discriminate;
    try (destruct sx; try discriminate); try (destruct sy; try discriminate);
    cbn [valid_binary] in Vx, Vy;
    try solve [cbn in H; discriminate];
    (split; [reflexivity |]);
    try (apply SFleb_finite; assumption);
    finite_bounds; cbn [SFv] in *; lia.
Qed.

(** ** Multiplication *)

Lemma product_precision (ma mx : positive) (ea ex : Z) :
  bounded prec emax ma ea = true -> bounded prec emax mx ex = true ->
  - OFF <= ea + ex
  /\ ea + ex <= fexp prec emax (Zdigits2 (Zpos (ma * mx)) + (ea + ex)).
Proof.
  intros Ba Bx.
  destruct (bounded_facts ma ea Ba) as (Hea & Hma & Na).
  destruct (bounded_facts mx ex Bx) as (Hex & Hmx & Nx).
  split; [unfold OFF; lia |].
  rewrite fexp_eq. cbn [Zdigits2].
  pose proof (digits_bounds (ma * mx)) as D.
  set (d := Zpos (digits2_pos (ma * mx))) in *.
  destruct (Z.le_gt_cases 53 d) as [Hd | Hd]; [lia |].
  assert (U : Zpos (ma * mx) < 2 ^ 52).
  { apply Z.lt_le_trans with (2 ^ d); [lia |]. apply Z.pow_le_mono_r; lia. }
  rewrite Pos2Z.inj_mul in U.
  assert (Zpos ma < 2 ^ 52) by nia.
  assert (Zpos mx < 2 ^ 52) by nia.
  assert (ea = -1074) by lia. assert (ex = -1074) by lia. lia.
Qed.

Lemma SFmul_finite_val (ma mx : positive) (ea ex : Z) :
  bounded prec emax ma ea = true -> bounded prec emax mx ex = true ->
  SFnonneg (SFmul prec emax (S754_finite false ma ea) (S754_finite false mx ex)) = true
  /\ SFv (SFmul prec emax (S754_finite false ma ea) (S754_finite false mx ex))
     = Z.min (rv (Zpos (ma * mx) * 2 ^ (ea + ex + OFF))) INF.
Proof.
  intros Ba Bx. destruct (product_precision ma mx ea ex Ba Bx) as [H1 H2].
  cbn [SFmul xorb]. apply binary_round_aux_val; assumption.
Qed.

Lemma scaled_product_le (ma mx my : positive) (ea ex ey : Z) :
  -1074 <= ea -> -1074 <= ex -> -1074 <= ey ->
  Zpos mx * 2 ^ (ex + OFF) <= Zpos my * 2 ^ (ey + OFF) ->
  Zpos (ma * mx) * 2 ^ (ea + ex + OFF) <= Zpos (ma * my) * 2 ^ (ea + ey + OFF).
Proof.
  intros Ha Hx Hy H. rewrite !Pos2Z.inj_mul.
  assert (P : 0 < 2 ^ 1074) by reflexivity.
  assert (Ex : 2 ^ (ea + ex + OFF) * 2 ^ 1074 = 2 ^ (ex + OFF) * 2 ^ (ea + 1074)).
  { rewrite <- !Z.pow_add_r by (unfold OFF; lia). f_equal. lia. }
  assert (Ey : 2 ^ (ea + ey + OFF) * 2 ^ 1074 = 2 ^ (ey + OFF) * 2 ^ (ea + 1074)).
  { rewrite <- !Z.pow_add_r by (unfold OFF; lia). f_equal. lia. }
  assert (Pa : 0 < 2 ^ (ea + 1074)) by (apply Z.pow_pos_nonneg; lia).
  apply (Z.mul_le_mono_pos_r _ _ (2 ^ 1074) P).
  replace (Zpos ma * Zpos mx * 2 ^ (ea + ex + OFF) * 2 ^ 1074)
    with (Zpos ma * 2 ^ (ea + 1074) * (Zpos mx * 2 ^ (ex + OFF)))
    by (rewrite <- !Z.mul_assoc; rewrite Ex; ring).
  replace (Zpos ma * Zpos my * 2 ^ (ea + ey + OFF) * 2 ^ 1074)
    with (Zpos ma * 2 ^ (ea + 1074) * (Zpos my * 2 ^ (ey + OFF)))
    by (rewrite <- !Z.mul_assoc; rewrite Ey; ring).
  apply Z.mul_le_mono_nonneg_l; [nia | exact H].
Qed.

(** Multiplication by a non-negative finite factor keeps the order of
    non-negative operands. *)
Lemma SFmul_mono (A X Y : spec_float) :
  valid_binary A = true -> valid_binary X = true -> valid_binary Y = true ->
  valid_binary (SFmul prec emax A X) = true ->
  valid_binary (SFmul prec emax A Y) = true ->
  SFleb (S754_zero false) A = true -> SFltb A (S754_infinity false) = true ->
  SFleb (S754_zero false) X = true -> SFleb X Y = true ->
  (SFeqb A (S754_zero false) = true -> SFltb Y (S754_infinity false) = true) ->
  SFleb (SFmul prec emax A X) (SFmul prec emax A Y) = true.
Proof.
  intros VA VX VY VAX VAY HA HAf HX HXY HY.
  destruct A as [sa | sa | | sa ma ea]; try discriminate;
    try (destruct sa; discriminate).
  - (* a zero factor *)
    specialize (HY eq_refl).
    destruct X as [sx | sx | | sx mx ex]; try discriminate;
    destruct Y as [sy | sy | | sy my ey]; try discriminate;
      try (destruct sx; try discriminate); try (destruct sy; try discriminate);
      try reflexivity.
  - destruct sa; [discriminate |]. cbn [valid_binary] in VA.
    destruct X as [sx | sx | | sx mx ex]; try discriminate;
    destruct Y as [sy | sy | | sy my ey]; try discriminate;
      try (destruct sx; try discriminate); try (destruct sy; try discriminate);
      try reflexivity; cbn [valid_binary] in VX, VY.
    1, 2: destruct (SFmul_finite_val ma my ea ey VA VY) as [N V];
      apply SFleb_of_val; try assumption; try reflexivity;
      cbn [SFmul SFv xorb] in *; rewrite V;
      pose proof INF_pos; apply Z.min_glb; [| lia].
    1, 2: unfold rv; apply Z.mul_nonneg_nonneg;
      [apply rne_div_nonneg; [lia | unfold Kexp, OFF; lia]
      | apply Z.pow_nonneg; lia].
    + (* a finite operand and infinity *)
      destruct (SFmul_finite_val ma mx ea ex VA VX) as [N1 V1].
      apply SFleb_of_val; try assumption; try reflexivity.
      cbn [SFmul SFv xorb] in *. rewrite V1. apply Z.le_min_r.
    + (* two finite operands *)
      destruct (SFmul_finite_val ma mx ea ex VA VX) as [N1 V1].
      destruct (SFmul_finite_val ma my ea ey VA VY) as [N2 V2].
      apply SFleb_of_val; try assumption. rewrite V1, V2.
      apply Z.min_le_compat_r. apply rv_mono.
      * assert (0 < 2 ^ (ea + ex + OFF)).
        { destruct (bounded_facts ma ea VA) as (? & _).
          destruct (bounded_facts mx ex VX) as (? & _).
          apply Z.pow_pos_nonneg; unfold OFF; lia. }
        nia.
      * destruct (bounded_facts ma ea VA) as (? & _).
        destruct (bounded_facts mx ex VX) as (? & _).
        destruct (bounded_facts my ey VY) as (? & _).
        apply scaled_product_le; try lia.
        apply SFleb_finite; assumption.
Qed.

(** ** The primitive operations *)

Local Open Scope float_scope.

Lemma Prim2SF_zero : Prim2SF 0 = S754_zero false.
Proof. reflexivity. Qed.

Lemma Prim2SF_neg_zero : Prim2SF (-0) = S754_zero true.
Proof. reflexivity. Qed.

Lemma Prim2SF_one : Prim2SF 1 = S754_finite false 4503599627370496 (-52).
Proof. reflexivity. Qed.

Lemma Prim2SF_infinity : Prim2SF infinity = S754_infinity false.
Proof. reflexivity. Qed.

Lemma Prim2SF_neg_infinity : Prim2SF neg_infinity = S754_infinity true.
Proof. reflexivity. Qed.

Lemma mul_valid (a x : float) :
  valid_binary (SFmul prec emax (Prim2SF a) (Prim2SF x)) = true.
Proof. rewrite <- mul_spec. apply Prim2SF_valid. Qed.

(** Multiplication by a finite factor that is not negative keeps the
    order of operands that are not negative; [0 * infinity], which is not
    a number, is excluded. *)
Lemma mul_le_mono_nonneg (a x y : float) :
  (0 <=? a) = true -> (a <? infinity) = true ->
  (0 <=? x) = true -> (x <=? y) = true ->
  ((a =? 0) = true -> (y <? infinity) = true) ->
  (a * x <=? a * y) = true.
Proof.
  rewrite !leb_spec, !ltb_spec, eqb_spec, !mul_spec.
  rewrite Prim2SF_zero, Prim2SF_infinity.
  intros HA HAf HX HXY HY.
  apply SFmul_mono; try assumption; try apply Prim2SF_valid; apply mul_valid.
Qed.

Lemma binary_round_aux_opp (s : bool) (m e : Z) (l : location) :
  binary_round_aux prec emax (negb s) m e l
  = SFopp (binary_round_aux prec emax s m e l).
Proof.
  unfold binary_round_aux.
  destruct (shr_fexp prec emax m e l) as [mrs' e'].
  destruct (shr_fexp prec emax _ e' loc_Exact) as [mrs'' e''].
  destruct (shr_m mrs''); try reflexivity.
  destruct (e'' <=? emax - prec)%Z; reflexivity.
Qed.

Lemma SFmul_opp_l (A X : spec_float) :
  SFmul prec emax (SFopp A) X = SFopp (SFmul prec emax A X).
Proof.
  destruct A as [sa | sa | | sa ma ea]; destruct X as [sx | sx | | sx mx ex];
    cbn [SFmul SFopp]; try reflexivity;
    try (destruct sa, sx; reflexivity).
  rewrite <- binary_round_aux_opp. destruct sa, sx; reflexivity.
Qed.

Lemma mul_opp_l (a x : float) : (- a) * x = - (a * x).
Proof.
  apply Prim2SF_inj. rewrite mul_spec, !opp_spec, mul_spec. apply SFmul_opp_l.
Qed.

Lemma SFleb_opp (X Y : spec_float) : SFleb (SFopp Y) (SFopp X) = SFleb X Y.
Proof.
  destruct X as [sx | sx | | sx mx ex]; destruct Y as [sy | sy | | sy my ey];
    cbn [SFopp]; try reflexivity;
    try (destruct sx; reflexivity); try (destruct sy; reflexivity);
    try (destruct sx, sy; reflexivity).
  unfold SFleb, SFcompare.
  rewrite !Pos.compare_cont_spec. cbn [Pos.switch_Eq].
  rewrite (Z.compare_antisym ex ey), (Pos.compare_antisym mx my).
  destruct sx, sy; cbn [negb]; try reflexivity;
    destruct (ex ?= ey)%Z; cbn [CompOpp]; try reflexivity;
    destruct (mx ?= my)%positive; reflexivity.
Qed.

Lemma leb_opp (x y : float) : (x <=? y) = true -> (- y <=? - x) = true.
Proof.
  rewrite !leb_spec, !opp_spec, SFleb_opp. exact (fun H => H).
Qed.

Lemma neg_infinity_le (x : float) : (x =? x) = true -> (neg_infinity <=? x) = true.
Proof.
  rewrite eqb_spec, leb_spec, Prim2SF_neg_infinity.
  destruct (Prim2SF x) as [s | s | | s m e]; try reflexivity;
    try (destruct s; reflexivity). discriminate.
Qed.

Lemma leb_not_nan_l (x y : float) : (x <=? y) = true -> (x =? x) = true.
Proof.
  rewrite eqb_spec, leb_spec.
  destruct (Prim2SF x) as [s | s | | s m e]; try discriminate; intros _.
  - reflexivity.
  - destruct s; reflexivity.
  - unfold SFeqb, SFcompare. rewrite Z.compare_refl, Pos.compare_cont_spec.
    cbn [Pos.switch_Eq]. rewrite Pos.compare_refl. destruct s; reflexivity.
Qed.

Lemma leb_not_nan_r (x y : float) : (x <=? y) = true -> (y =? y) = true.
Proof.
  rewrite eqb_spec, leb_spec.
  destruct (Prim2SF y) as [s | s | | s m e]; intros H.
  - reflexivity.
  - destruct s; reflexivity.
  - destruct (Prim2SF x) as [s | s | | s m e]; discriminate.
  - unfold SFeqb, SFcompare. rewrite Z.compare_refl, Pos.compare_cont_spec.
    cbn [Pos.switch_Eq]. rewrite Pos.compare_refl. destruct s; reflexivity.
Qed.

Lemma le_one_lt_infinity (y : float) : (y <=? 1) = true -> (y <? infinity) = true.
Proof.
  rewrite leb_spec, ltb_spec, Prim2SF_one, Prim2SF_infinity.
  destruct (Prim2SF y) as [s | s | | s m e]; try discriminate; try reflexivity.
  destruct s; [reflexivity | discriminate].
Qed.

(** A product of two factors that are not negative is not negative. *)
Lemma mul_nonneg (a x : float) :
  (0 <=? a) = true -> (a <? infinity) = true -> (0 <=? x) = true ->
  ((a =? 0) = true -> (x <? infinity) = true) ->
  (0 <=? a * x) = true.
Proof.
  intros HA HAf HX HY.
  pose proof (mul_le_mono_nonneg a 0 x HA HAf eq_refl HX HY) as M.
  revert HA HAf M. rewrite !leb_spec, ltb_spec, Prim2SF_zero, Prim2SF_infinity.
  rewrite (mul_spec a 0), Prim2SF_zero.
  destruct (Prim2SF a) as [s | s | | s m e]; try discriminate;
    destruct s; try discriminate; cbn [SF64mul SFmul xorb]; intros _ _;
    destruct (Prim2SF (a * x)) as [s' | s' | | s' m' e']; trivial.
Qed.

Lemma canonical_fexp (m : positive) (e : Z) :
  bounded prec emax m e = true ->
  fexp prec emax (Zdigits2 (Zpos m) + e) = e /\ (e <=? emax - prec)%Z = true.
Proof.
  unfold bounded, canonical_mantissa. intros H. apply andb_prop in H.
  destruct H as [C B]. apply Z.eqb_eq in C. split; [exact C | exact B].
Qed.

Lemma SFmul_one_r (X : spec_float) :
  valid_binary X = true ->
  SFmul prec emax X (S754_finite false 4503599627370496 (-52)) = X.
Proof.
  intros V. destruct X as [s | s | | s m e]; cbn [SFmul]; try reflexivity;
    try (destruct s; reflexivity).
  cbn [valid_binary] in V. destruct (canonical_fexp m e V) as [C B].
  rewrite binary_round_aux_exact. cbv zeta.
  assert (D : (Zdigits2 (Z.pos (m * 4503599627370496)) = Zdigits2 (Zpos m) + 52)%Z).
  { rewrite !Zdigits2_log2 by lia. rewrite Pos2Z.inj_mul.
    change (Z.pos 4503599627370496) with (2 ^ 52)%Z.
    rewrite Z.log2_mul_pow2 by lia. lia. }
  rewrite D.
  replace (Zdigits2 (Z.pos m) + 52 + (e + -52))%Z with (Zdigits2 (Z.pos m) + e)%Z by lia.
  rewrite C.
  replace (Z.max 0 (e - (e + -52)))%Z with 52%Z by lia.
  assert (R : rne_div (Z.pos (m * 4503599627370496)) 52 = Zpos m).
  { rewrite Pos2Z.inj_mul. change (Z.pos 4503599627370496) with (2 ^ 52)%Z.
    change 52%Z with (0 + 52)%Z at 2.
    rewrite (rne_div_scale (Zpos m) 0 52) by lia. apply rne_div_0. }
  rewrite R.
  replace (e + -52 + 52)%Z with e by lia. rewrite C.
  replace (Z.max 0 (e - e))%Z with 0%Z by lia.
  change (2 ^ 0)%Z with 1%Z. rewrite Z.div_1_r, Z.add_0_r, B.
  destruct s; reflexivity.
Qed.

Lemma mul_1_r (x : float) : x * 1 = x.
Proof.
  apply Prim2SF_inj. rewrite mul_spec, Prim2SF_one.
  apply SFmul_one_r. apply Prim2SF_valid.
Qed.

(** [a * z] for a finite [a] and a zero [z] is a zero. *)
Lemma mul_zero_r (a z : float) :
  (a <? infinity) = true -> (neg_infinity <? a) = true -> (z =? 0) = true ->
  (a * z =? 0) = true.
Proof.
  rewrite !ltb_spec, !eqb_spec, mul_spec, Prim2SF_zero, Prim2SF_infinity,
    Prim2SF_neg_infinity.
  destruct (Prim2SF a) as [s | s | | s m e]; try discriminate;
    destruct (Prim2SF z) as [s' | s' | | s' m' e']; try discriminate;
    try reflexivity; try (destruct s; discriminate);
    try (destruct s'; discriminate);
    try (destruct s, s'; discriminate).
Qed.

(** ** The order of all valid floats *)

Local Open Scope Z_scope.

Lemma SFv_pos (x : spec_float) :
  valid_binary x = true -> SFnum x = true ->
  0 <= SFv x /\ (SFsign x = true -> 0 < SFv x).
Proof.
  intros V N. pose proof INF_pos.
  destruct x as [s | s | | s m e]; cbn [SFv SFsign]; try discriminate;
    try (split; [lia | intros; try discriminate; lia]).
  cbn [valid_binary] in V. pose proof (SFv_finite_lt_INF s m e V) as B.
  cbn [SFv] in B. split; [lia | intros; lia].
Qed.

Lemma SFopp_nonneg (x : spec_float) :
  SFnum x = true -> SFsign x = true -> SFnonneg (SFopp x) = true.
Proof. destruct x as [s | s | | s m e]; cbn; intros; subst; try discriminate; reflexivity. Qed.

Lemma SFv_opp (x : spec_float) : SFv (SFopp x) = SFv x.
Proof. destruct x; reflexivity. Qed.

Lemma SFopp_valid (x : spec_float) : valid_binary (SFopp x) = valid_binary x.
Proof. destruct x; reflexivity. Qed.

Lemma SFnonneg_sign (x : spec_float) :
  SFnum x = true -> SFnonneg x = negb (SFsign x).
Proof. destruct x as [s | s | | s m e]; cbn; intros; try discriminate; reflexivity. Qed.

(** On valid numbers the order of the format is the order of the values. *)
Lemma SFleb_iff (x y : spec_float) :
  valid_binary x = true -> valid_binary y = true ->
  SFnum x = true -> SFnum y = true ->
  (SFleb x y = true <-> SFsv x <= SFsv y).
Proof.
  intros Vx Vy Nx Ny. unfold SFsv.
  pose proof (SFv_pos x Vx Nx) as [Px Sx]. pose proof (SFv_pos y Vy Ny) as [Py Sy].
  pose proof (SFnonneg_sign x Nx) as Ex. pose proof (SFnonneg_sign y Ny) as Ey.
  destruct (SFsign x) eqn:Gx; destruct (SFsign y) eqn:Gy; cbn [negb] in Ex, Ey.
  - (* both negative *)
    rewrite <- SFleb_opp.
    pose proof (SFopp_nonneg x Nx Gx) as Ox. pose proof (SFopp_nonneg y Ny Gy) as Oy.
    split; intros H.
    + destruct (val_of_SFleb (SFopp y) (SFopp x)) as [_ L]; try assumption;
        try (rewrite SFopp_valid; assumption).
      rewrite !SFv_opp in L. lia.
    + apply SFleb_of_val; try assumption; try (rewrite SFopp_valid; assumption).
      rewrite !SFv_opp. lia.
  - specialize (Sx eq_refl). split; intros _; [lia |].
    destruct x as [sx | sx | | sx mx ex]; destruct y as [sy | sy | | sy my ey];
      cbn in Gx, Gy; subst; try discriminate; reflexivity.
  - specialize (Sy eq_refl). split; intros H; [| lia].
    destruct x as [sx | sx | | sx mx ex]; destruct y as [sy | sy | | sy my ey];
      cbn in Gx, Gy; subst; try discriminate; cbn in H; discriminate.
  - split; intros H.
    + apply (val_of_SFleb x y); assumption.
    + apply SFleb_of_val; assumption.
Qed.

Local Open Scope float_scope.

Lemma is_number_SFnum (x : float) : (x =? x) = true <-> SFnum (Prim2SF x) = true.
Proof.
  rewrite eqb_spec. destruct (Prim2SF x) as [s | s | | s m e]; cbn [SFnum].
  - split; reflexivity.
  - split; intros _; [reflexivity | destruct s; reflexivity].
  - split; discriminate.
  - split; intros _; [reflexivity |].
    unfold SFeqb, SFcompare. rewrite Z.compare_refl, Pos.compare_cont_spec.
    cbn [Pos.switch_Eq]. rewrite Pos.compare_refl. destruct s; reflexivity.
Qed.

Lemma leb_iff (x y : float) :
  (x =? x) = true -> (y =? y) = true ->
  ((x <=? y) = true <-> (SFsv (Prim2SF x) <= SFsv (Prim2SF y))%Z).
Proof.
  intros Nx Ny. rewrite leb_spec.
  apply SFleb_iff; try apply Prim2SF_valid; apply is_number_SFnum; assumption.
Qed.

Lemma leb_trans (x y z : float) :
  (x <=? y) = true -> (y <=? z) = true -> (x <=? z) = true.
Proof.
  intros H1 H2.
  pose proof (leb_not_nan_l x y H1) as Nx. pose proof (leb_not_nan_r x y H1) as Ny.
  pose proof (leb_not_nan_r y z H2) as Nz.
  apply (leb_iff x y Nx Ny) in H1. apply (leb_iff y z Ny Nz) in H2.
  apply (leb_iff x z Nx Nz). lia.
Qed.

Lemma leb_refl (x : float) : (x =? x) = true -> (x <=? x) = true.
Proof. intros N. apply (leb_iff x x N N). lia. Qed.

Lemma leb_total (x y : float) :
  (x =? x) = true -> (y =? y) = true -> (x <=? y) = true \/ (y <=? x) = true.
Proof.
  intros Nx Ny.
  destruct (Z.le_ge_cases (SFsv (Prim2SF x)) (SFsv (Prim2SF y))) as [H | H].
  - left. apply (leb_iff x y Nx Ny). exact H.
  - right. apply (leb_iff y x Ny Nx). exact H.
Qed.

(** ** The sign of a quotient *)

Lemma binary_round_aux_bit (s : bool) (m e : Z) (l : location) :
  SFnum (binary_round_aux prec emax s m e l) = true ->
  SFbit (binary_round_aux prec emax s m e l) = s.
Proof.
  unfold binary_round_aux.
  destruct (shr_fexp prec emax m e l) as [mrs' e'].
  destruct (shr_fexp prec emax _ e' loc_Exact) as [mrs'' e''].
  destruct (shr_m mrs''); try reflexivity; [| discriminate].
  destruct (e'' <=? emax - prec)%Z; reflexivity.
Qed.

Lemma SFdiv_bit (X Y : spec_float) :
  SFnum (SFdiv prec emax X Y) = true ->
  SFbit (SFdiv prec emax X Y) = xorb (SFbit X) (SFbit Y).
Proof.
  destruct X as [sx | sx | | sx mx ex]; destruct Y as [sy | sy | | sy my ey];
    cbn [SFdiv SFbit SFnum]; try reflexivity; try discriminate.
  destruct (SFdiv_core_binary prec emax (Z.pos mx) ex (Z.pos my) ey) as [[mz ez] lz].
  apply binary_round_aux_bit.
Qed.

(** A quotient of two positive numbers that is below infinity is not
    negative. *)
Lemma div_pos_nonneg (x y : float) :
  (0 <? x) = true -> (0 <? y) = true -> (x / y <? infinity) = true ->
  (0 <=? x / y) = true.
Proof.
  rewrite !ltb_spec, leb_spec, Prim2SF_zero, Prim2SF_infinity, div_spec.
  intros Hx Hy Hq.
  assert (N : SFnum (SF64div (Prim2SF x) (Prim2SF y)) = true).
  { destruct (SF64div (Prim2SF x) (Prim2SF y)); try reflexivity. discriminate. }
  pose proof (SFdiv_bit _ _ N) as B.
  assert (Bx : SFbit (Prim2SF x) = false).
  { destruct (Prim2SF x) as [s | s | | s m e]; try discriminate;
      destruct s; try discriminate; reflexivity. }
  assert (By : SFbit (Prim2SF y) = false).
  { destruct (Prim2SF y) as [s | s | | s m e]; try discriminate;
      destruct s; try discriminate; reflexivity. }
  rewrite Bx, By in B. unfold SF64div in *.
  destruct (SFdiv prec emax (Prim2SF x) (Prim2SF y)) as [s | s | | s m e];
    try discriminate; cbn [SFbit] in B; subst s; try reflexivity; discriminate.
Qed.

End IEEE754Facts.

Module Binary64Facts.
Import Py IEEE754 IEEE754Facts Binary64.
Local Open Scope float_scope.
Local Set Warnings "-inexact-float".

Lemma step_ge (tbl : list (float * float)) (x : float) :
  forall acc, ascending acc tbl = true -> (acc =? acc) = true ->
              (acc <=? step tbl x acc) = true.
Proof.
  induction tbl as [| [k v] rest IH]; intros acc Ha Hn; cbn [step ascending] in *.
  - apply leb_refl, Hn.
  - apply andb_prop in Ha. destruct Ha as [Hv Hr].
    destruct (k <=? x); [| apply leb_refl, Hn].
    apply (leb_trans acc v); [exact Hv |].
    apply IH; [exact Hr | exact (leb_not_nan_r acc v Hv)].
Qed.

Lemma step_mono (tbl : list (float * float)) (x y : float) :
  (x <=? y) = true ->
  forall acc, ascending acc tbl = true -> (acc =? acc) = true ->
              (step tbl x acc <=? step tbl y acc) = true.
Proof.
  intros Hxy. induction tbl as [| [k v] rest IH]; intros acc Ha Hn;
    cbn [step ascending] in *.
  - apply leb_refl, Hn.
  - apply andb_prop in Ha. destruct Ha as [Hv Hr].
    pose proof (leb_not_nan_r acc v Hv) as Nv.
    destruct (k <=? x) eqn:Kx.
    + rewrite (leb_trans k x y Kx Hxy). apply IH; assumption.
    + destruct (k <=? y).
      * apply (leb_trans acc v); [exact Hv | apply step_ge; assumption].
      * apply leb_refl, Hn.
Qed.

Lemma eqb_zero_cases (z : float) : (z =? 0) = true -> z = 0 \/ z = -0.
Proof.
  rewrite eqb_spec, Prim2SF_zero. intros H.
  destruct (Prim2SF z) as [s | s | | s m e] eqn:E; try discriminate;
    try (destruct s; discriminate).
  destruct s; [right | left]; apply Prim2SF_inj; rewrite E; reflexivity.
Qed.

Lemma TableLibm_laws : LibmLaws TableLibm.
Proof.
  constructor; cbn [exp TableLibm].
  - intros z Hz. destruct (eqb_zero_cases z Hz) as [-> | ->]; reflexivity.
  - reflexivity.
  - intros x y Hxy.
    rewrite (leb_not_nan_l x y Hxy), (leb_not_nan_r x y Hxy).
    apply step_mono; [exact Hxy | reflexivity | reflexivity].
Qed.


Lemma ltb_leb (x y : float) : (x <? y) = true -> (x <=? y) = true.
Proof.
  rewrite ltb_spec, leb_spec. unfold SFltb, SFleb.
  destruct (SFcompare (Prim2SF x) (Prim2SF y)) as [[| |] |]; try discriminate.
  reflexivity.
Qed.

Lemma pos_not_zero (k : float) : (0 <? k) = true -> (k =? 0) = false.
Proof.
  rewrite ltb_spec, eqb_spec, Prim2SF_zero.
  destruct (Prim2SF k) as [s | s | | s m e]; try discriminate;
    destruct s; try discriminate; reflexivity.
Qed.

Lemma opp_zero (z : float) : (z =? 0) = true -> (- z =? 0) = true.
Proof. intros H. destruct (eqb_zero_cases z H) as [-> | ->]; reflexivity. Qed.

Lemma mul_zero_r' (a z : float) :
  (0 <=? a) = true -> (a <? infinity) = true -> (z =? 0) = true ->
  (a * z =? 0) = true.
Proof.
  rewrite leb_spec, ltb_spec, !eqb_spec, mul_spec, Prim2SF_zero, Prim2SF_infinity.
  destruct (Prim2SF a) as [s | s | | s m e]; try discriminate;
    destruct (Prim2SF z) as [s' | s' | | s' m' e']; try discriminate;
    try reflexivity; try (destruct s; discriminate);
    try (destruct s'; discriminate);
    try (destruct s, s'; discriminate).
Qed.

Section WithLibm.
Context {L : Libm} (Laws : LibmLaws L).

(** The decay factor [np.exp(-k*t)] at a time that is not negative lies
    between 0 and 1 and does not grow with the time. *)
Lemma decay_factor (k t1 t2 : float) :
  (0 <? k) = true -> (k <? infinity) = true ->
  (0 <=? t1) = true -> (t1 <=? t2) = true ->
  (0 <=? exp ((- k) * t2)) = true
  /\ (exp ((- k) * t2) <=? exp ((- k) * t1)) = true
  /\ (exp ((- k) * t1) <=? 1) = true.
Proof.
  intros Hk Hkf H1 H12.
  pose proof (ltb_leb 0 k Hk) as Hk0.
  pose proof (pos_not_zero k Hk) as Hkz.
  rewrite !mul_opp_l.
  assert (M : (k * t1 <=? k * t2) = true).
  { apply mul_le_mono_nonneg; try assumption. rewrite Hkz. discriminate. }
  assert (P1 : (0 <=? k * t1) = true).
  { apply mul_nonneg; try assumption. rewrite Hkz. discriminate. }
  split; [| split].
  - rewrite <- (exp_neg_infinity (LibmLaws := Laws)).
    apply exp_monotone, neg_infinity_le.
    apply (leb_not_nan_l _ _ (leb_opp _ _ M)).
  - apply exp_monotone, leb_opp, M.
  - rewrite <- (exp_zero (-0) eq_refl).
    apply exp_monotone. apply (leb_opp 0 (k * t1) P1).
Qed.

Lemma decay_factor_at_zero (k z : float) :
  (0 <? k) = true -> (k <? infinity) = true -> (z =? 0) = true ->
  exp ((- k) * z) = 1.
Proof.
  intros Hk Hkf Hz. apply exp_zero. rewrite mul_opp_l. apply opp_zero.
  apply mul_zero_r'; [apply ltb_leb, Hk | exact Hkf | exact Hz].
Qed.

Lemma bolus_values (t : ndarray) (D V k : float) :
  (0 <? V) = true ->
  one_compartment_iv_bolus t D V k
  = Ok (map (fun ti => D / V * exp ((- k) * ti)) t).
Proof.
  intros HV. unfold one_compartment_iv_bolus, truediv.
  rewrite (pos_not_zero V HV). cbn [bind]. rewrite !map_map. reflexivity.
Qed.

Lemma nth_map_nan (f : float -> float) (t : list float) (i : nat) :
  (i < length t)%nat -> nth i (map f t) nan = f (nth i t nan).
Proof.
  intros Hi. rewrite (nth_indep (map f t) nan (f nan)) by (rewrite length_map; exact Hi).
  apply map_nth.
Qed.


End WithLibm.




End Binary64Facts.

(* ================================================================== *)
(** * Properties of the Lipinski game *)
(* ================================================================== *)

Module ComplianceFacts.
Import Py RDKit Lipinski.
Local Open Scope string_scope.
Local Open Scope nat_scope.

(* [500.01] stands for the binary64 value nearest to it, as it does in Python. *)
Local Set Warnings "-inexact-float".

(** C2. For every parameter record the check reports compliance exactly
    when at most one of the four rules fails, that is when at least three
    of them hold; a molecular weight of exactly 500.0 satisfies the weight
    rule and 500.01 fails it, whatever the other parameters are. *)
Theorem compliance_allows_one_violation :
  (forall p : Params,
      exists rules compliance,
        check_lipinski_compliance (Some p) = CheckTuple rules compliance
        /\ map snd rules = criteria p
        /\ (compliance = true <-> violations p <= 1)
        /\ (compliance = true <-> 3 <= satisfied p))
  /\ (forall lp hbd hba,
        rule_of (check_lipinski_compliance (Some (mkParams 500.0 lp hbd hba)))
                "Molecular Weight" = Some true)
  /\ (forall lp hbd hba,
        rule_of (check_lipinski_compliance (Some (mkParams 500.01 lp hbd hba)))
                "Molecular Weight" = Some false).
Proof.
  split; [| split].
  - intros [mw lp hbd hba]. eexists. eexists.
    split; [reflexivity |]. split; [reflexivity |].
    unfold violations, satisfied, criteria, sum_bools. cbn [map snd fold_left].
    cbn [molecular_weight logp h_bond_donors h_bond_acceptors].
    destruct (PrimFloat.leb mw 500), (PrimFloat.leb lp 5),
      (hbd <=? 5)%Z, (hba <=? 10)%Z;
      cbn; split; split; intros H; try reflexivity; try discriminate; lia.
  - intros. reflexivity.
  - intros. reflexivity.
Qed.

End ComplianceFacts.

(** ** The graph edits keep molecules well formed *)

Module RDKitFacts.
Import Py RDKit.
Local Open Scope nat_scope.

Lemma bond_ok_spec (n : nat) (b : Bond) :
  bond_ok n b = true
  <-> begin_idx b < n /\ end_idx b < n /\ begin_idx b <> end_idx b.
Proof.
  unfold bond_ok. rewrite !andb_true_iff, negb_true_iff.
  rewrite !Nat.ltb_lt, Nat.eqb_neq. tauto.
Qed.

Lemma bond_touches_false (i : nat) (b : Bond) :
  bond_touches i b = false <-> begin_idx b <> i /\ end_idx b <> i.
Proof.
  unfold bond_touches. rewrite orb_false_iff, !Nat.eqb_neq. tauto.
Qed.

Lemma wf_mol_spec (m : Mol) :
  wf_mol m = true
  <-> forall b, In b (bonds m) ->
                begin_idx b < GetNumAtoms m /\ end_idx b < GetNumAtoms m
                /\ begin_idx b <> end_idx b.
Proof.
  unfold wf_mol. rewrite forallb_forall.
  split; intros H b Hb; apply bond_ok_spec, H, Hb.
Qed.

(** *** AddHs *)

Lemma add_one_h_wf (parent : nat) (m : Mol) :
  parent < GetNumAtoms m -> wf_mol m = true ->
  wf_mol (add_one_h parent m) = true
  /\ GetNumAtoms (add_one_h parent m) = S (GetNumAtoms m).
Proof.
  intros Hp Hwf. split.
  - apply wf_mol_spec. intros b Hb.
    unfold add_one_h, GetNumAtoms in *. cbn [atoms bonds] in *.
    rewrite length_app. cbn [length].
    apply in_app_or in Hb. destruct Hb as [Hb | [<- | []]].
    + apply (proj1 (wf_mol_spec m) Hwf) in Hb. unfold GetNumAtoms in Hb. lia.
    + cbn. lia.
  - unfold add_one_h, GetNumAtoms. cbn [atoms]. rewrite length_app. cbn. lia.
Qed.

Lemma add_n_hs_wf (n parent : nat) :
  forall m, parent < GetNumAtoms m -> wf_mol m = true ->
            wf_mol (add_n_hs n parent m) = true
            /\ GetNumAtoms m <= GetNumAtoms (add_n_hs n parent m).
Proof.
  induction n as [| n IH]; intros m Hp Hwf; cbn [add_n_hs].
  - split; [exact Hwf | lia].
  - destruct (add_one_h_wf parent m Hp Hwf) as [W L].
    destruct (IH (add_one_h parent m)) as [W' L']; [lia | exact W |].
    split; [exact W' | lia].
Qed.

Lemma add_hs_loop_wf (l : list (nat * Atom)) :
  forall acc,
    Forall (fun ia => fst ia < GetNumAtoms acc) l ->
    wf_mol acc = true ->
    wf_mol (fold_left (fun acc (ia : nat * Atom) =>
                         add_n_hs (num_hs (snd ia)) (fst ia) acc) l acc) = true.
Proof.
  induction l as [| [i a] l IH]; intros acc HF Hwf; cbn [fold_left].
  - exact Hwf.
  - inversion HF as [| ? ? Hi HF']; subst. cbn [fst snd] in *.
    destruct (add_n_hs_wf (num_hs a) i acc Hi Hwf) as [W L].
    apply IH; [| exact W].
    eapply Forall_impl; [| exact HF']. intros ia Hia. cbn beta in *. lia.
Qed.

Lemma enumerate_fst_lt {A} (l : list A) (i : nat) (x : A) :
  In (i, x) (enumerate l) -> i < length l.
Proof.
  unfold enumerate. intros Hin. apply in_combine_l in Hin.
  apply in_seq in Hin. lia.
Qed.

Lemma AddHs_wf (mol : Mol) : wf_mol mol = true -> wf_mol (AddHs mol) = true.
Proof.
  intros Hwf. unfold AddHs.
  set (m := fold_left _ _ mol).
  assert (W : wf_mol m = true).
  { apply add_hs_loop_wf; [| exact Hwf].
    apply Forall_forall. intros [i a] Hin. cbn [fst].
    apply enumerate_fst_lt in Hin. exact Hin. }
  unfold wf_mol, GetNumAtoms in *. cbn [atoms bonds].
  rewrite length_map. exact W.
Qed.

(** *** RemoveAtom *)

Lemma drop_nth_length {A} (idx : nat) (l : list A) :
  idx < length l -> length (drop_nth idx l) = length l - 1.
Proof.
  intros H. unfold drop_nth.
  rewrite length_app, length_firstn, length_skipn. lia.
Qed.

Lemma RemoveAtom_ok (idx : nat) (m : Mol) :
  idx < GetNumAtoms m ->
  RemoveAtom idx m
  = Ok (mkMol (drop_nth idx (atoms m))
              (map (renumber_bond idx)
                   (filter (fun b => negb (bond_touches idx b)) (bonds m)))).
Proof.
  intros H. unfold RemoveAtom. apply Nat.ltb_lt in H. rewrite H. reflexivity.
Qed.

Lemma RemoveAtom_wf (idx : nat) (m m' : Mol) :
  wf_mol m = true -> RemoveAtom idx m = Ok m' ->
  wf_mol m' = true /\ GetNumAtoms m' = GetNumAtoms m - 1
  /\ idx < GetNumAtoms m.
Proof.
  intros Hwf HR. unfold RemoveAtom in HR.
  destruct (Nat.ltb_spec idx (GetNumAtoms m)) as [Hlt | Hge]; [| discriminate].
  injection HR as <-.
  assert (L : GetNumAtoms (mkMol (drop_nth idx (atoms m))
                (map (renumber_bond idx)
                   (filter (fun b => negb (bond_touches idx b)) (bonds m))))
              = GetNumAtoms m - 1).
  { unfold GetNumAtoms. cbn [atoms]. apply drop_nth_length. exact Hlt. }
  split; [| split; [exact L | exact Hlt]].
  apply wf_mol_spec. rewrite L. cbn [bonds]. intros b' Hb'.
  apply in_map_iff in Hb'. destruct Hb' as (b & <- & Hb).
  apply filter_In in Hb. destruct Hb as [Hb Ht].
  apply negb_true_iff, bond_touches_false in Ht.
  apply (proj1 (wf_mol_spec m) Hwf) in Hb.
  unfold renumber_bond, renumber. cbn [begin_idx end_idx].
  destruct (Nat.ltb_spec idx (begin_idx b)), (Nat.ltb_spec idx (end_idx b)); lia.
Qed.

(** *** A bond to an atom of the second molecule, then that atom removed *)

Lemma filter_keeps_all {A} (f : A -> bool) (l : list A) :
  (forall x, In x l -> f x = true) -> filter f l = l.
Proof.
  intros H. apply forallb_filter_id. apply forallb_forall. exact H.
Qed.

Lemma drop_nth_app {A} (l1 l2 : list A) (d : nat) :
  drop_nth (length l1 + d) (l1 ++ l2) = l1 ++ drop_nth d l2.
Proof.
  unfold drop_nth. rewrite firstn_app_2, skipn_app.
  rewrite skipn_all2 by lia.
  replace (S (length l1 + d) - length l1) with (S d) by lia.
  cbn [app]. rewrite <- app_assoc. reflexivity.
Qed.

Lemma touches_shift (n d : nat) (b : Bond) :
  bond_touches (n + d) (shift_bond n b) = bond_touches d b.
Proof.
  unfold bond_touches, shift_bond. cbn [begin_idx end_idx].
  destruct (Nat.eqb_spec (n + begin_idx b) (n + d)),
    (Nat.eqb_spec (begin_idx b) d),
    (Nat.eqb_spec (n + end_idx b) (n + d)),
    (Nat.eqb_spec (end_idx b) d); try reflexivity; lia.
Qed.

Lemma renumber_shift (n d : nat) (b : Bond) :
  bond_touches d b = false ->
  renumber_bond (n + d) (shift_bond n b) = shift_bond n (renumber_bond d b).
Proof.
  intros Ht. apply bond_touches_false in Ht.
  unfold renumber_bond, shift_bond, renumber. cbn [begin_idx end_idx bond_type].
  destruct (Nat.ltb_spec (n + d) (n + begin_idx b)), (Nat.ltb_spec d (begin_idx b)),
    (Nat.ltb_spec (n + d) (n + end_idx b)), (Nat.ltb_spec d (end_idx b));
    try lia; f_equal; lia.
Qed.

Lemma remove_in_shifted (n d : nat) (bs : list Bond) :
  map (renumber_bond (n + d))
      (filter (fun b => negb (bond_touches (n + d) b)) (map (shift_bond n) bs))
  = map (shift_bond n)
        (map (renumber_bond d) (filter (fun b => negb (bond_touches d b)) bs)).
Proof.
  induction bs as [| b bs IH]; [reflexivity |].
  cbn [map filter]. rewrite touches_shift.
  destruct (bond_touches d b) eqn:Ht; cbn [negb map].
  - exact IH.
  - rewrite IH, (renumber_shift n d b Ht). reflexivity.
Qed.

Lemma remove_in_first (n d : nat) (bs : list Bond) :
  (forall b, In b bs -> begin_idx b < n /\ end_idx b < n) ->
  map (renumber_bond (n + d))
      (filter (fun b => negb (bond_touches (n + d) b)) bs) = bs.
Proof.
  intros H. rewrite filter_keeps_all.
  - rewrite <- (map_id bs) at 2. apply map_ext_in. intros [b e t] Hb.
    apply H in Hb. cbn [begin_idx end_idx] in Hb.
    unfold renumber_bond, renumber. cbn [begin_idx end_idx bond_type].
    destruct (Nat.ltb_spec (n + d) b), (Nat.ltb_spec (n + d) e);
      try lia; reflexivity.
  - intros b Hb. apply H in Hb. apply negb_true_iff, bond_touches_false. lia.
Qed.

(** The heart of the attachment: in the combined molecule, adding a bond
    from an atom of the first molecule to atom [d] of the second and then
    removing that atom gives the first molecule next to the second one
    without its atom [d]: the new bond goes with the atom. *)
Lemma bond_then_remove (a f : Mol) (heavy_idx d : nat) (order : BondType) :
  wf_mol a = true -> heavy_idx < GetNumAtoms a -> d < GetNumAtoms f ->
  exists new_mol f',
    AddBond heavy_idx (GetNumAtoms a + d) order (CombineMols a f) = Ok new_mol
    /\ RemoveAtom d f = Ok f'
    /\ RemoveAtom (GetNumAtoms a + d) new_mol = Ok (CombineMols a f').
Proof.
  intros Hwf Hh Hd.
  pose proof (proj1 (wf_mol_spec a) Hwf) as Wa.
  set (n := GetNumAtoms a) in *.
  assert (HN : GetNumAtoms (CombineMols a f) = n + GetNumAtoms f).
  { unfold CombineMols, GetNumAtoms. cbn [atoms]. apply length_app. }
  assert (Hex : existsb (joins heavy_idx (n + d)) (bonds (CombineMols a f)) = false).
  { destruct (existsb _ _) eqn:E; [| reflexivity].
    apply existsb_exists in E. destruct E as (b & Hb & Hj).
    unfold CombineMols in Hb. cbn [bonds] in Hb. fold n in Hb.
    unfold joins in Hj.
    rewrite orb_true_iff, !andb_true_iff, !Nat.eqb_eq in Hj.
    apply in_app_or in Hb. destruct Hb as [Hb | Hb].
    - apply Wa in Hb. lia.
    - apply in_map_iff in Hb. destruct Hb as (b0 & <- & _).
      cbn [shift_bond begin_idx end_idx] in Hj. lia. }
  exists (mkMol (atoms (CombineMols a f))
                (bonds (CombineMols a f) ++ [mkBond heavy_idx (n + d) order])).
  eexists.
  split; [| split].
  - unfold AddBond. rewrite HN, Hex.
    destruct (Nat.ltb_spec heavy_idx (n + GetNumAtoms f)); [| lia].
    destruct (Nat.ltb_spec (n + d) (n + GetNumAtoms f)); [| lia].
    destruct (Nat.eqb_spec heavy_idx (n + d)); [lia |]. reflexivity.
  - apply RemoveAtom_ok. exact Hd.
  - rewrite RemoveAtom_ok
      by (unfold GetNumAtoms in *; cbn [atoms CombineMols]; rewrite length_app; lia).
    f_equal. unfold CombineMols. cbn [atoms bonds]. fold n. f_equal.
    + unfold n, GetNumAtoms. apply drop_nth_app.
    + assert (Hlast : filter (fun b => negb (bond_touches (n + d) b))
                             [mkBond heavy_idx (n + d) order] = []).
      { cbn [filter]. unfold bond_touches. cbn [begin_idx end_idx].
        rewrite Nat.eqb_refl, orb_true_r. reflexivity. }
      rewrite !filter_app, !map_app, Hlast.
      rewrite remove_in_first by (intros b Hb; apply Wa in Hb; lia).
      rewrite remove_in_shifted. cbn [map]. rewrite app_nil_r. reflexivity.
Qed.

End RDKitFacts.

(** ** The attachment of a functional group *)

Module AttachFacts.
Import Py RDKit RDKitFacts Lipinski.
Local Open Scope string_scope.
Local Open Scope nat_scope.
Local Open Scope list_scope.

Section WithToolkit.
Context {T : Toolkit}.

Lemma find_hydrogen_spec (mol_h : Mol) (l : list (nat * Atom)) (h heavy : nat) :
  find_hydrogen mol_h l = Some (h, heavy) ->
  (exists a, In (h, a) l /\ atomic_num a = 1)
  /\ In heavy (GetNeighbors mol_h h).
Proof.
  induction l as [| [idx atom] l IH]; cbn [find_hydrogen]; [discriminate |].
  destruct (Nat.eqb_spec (atomic_num atom) 1) as [E1 | _].
  - destruct (GetNeighbors mol_h idx) as [| nb nbs] eqn:EN.
    + intros H. destruct (IH H) as [(a & Ha & Hz) Hn].
      split; [exists a; split; [right; exact Ha | exact Hz] | exact Hn].
    + intros H. injection H as <- <-.
      split; [exists atom; split; [left; reflexivity | exact E1] |].
      rewrite EN. left. reflexivity.
  - intros H. destruct (IH H) as [(a & Ha & Hz) Hn].
    split; [exists a; split; [right; exact Ha | exact Hz] | exact Hn].
Qed.

Lemma neighbors_wf (m : Mol) (i j : nat) :
  wf_mol m = true -> In j (GetNeighbors m i) ->
  j < GetNumAtoms m /\ j <> i.
Proof.
  intros Hwf Hin. unfold GetNeighbors in Hin.
  apply in_map_iff in Hin. destruct Hin as (b & <- & Hb).
  apply filter_In in Hb. destruct Hb as [Hb Ht].
  apply (proj1 (wf_mol_spec m) Hwf) in Hb.
  unfold bond_touches in Ht. unfold other_end.
  rewrite orb_true_iff, !Nat.eqb_eq in Ht.
  destruct (Nat.eqb_spec (begin_idx b) i); lia.
Qed.

Lemma find_dummy_spec (l : list (nat * Atom)) (d : nat) :
  find_dummy l = Some d -> exists a, In (d, a) l /\ atomic_num a = 0.
Proof.
  induction l as [| [idx atom] l IH]; cbn [find_dummy]; [discriminate |].
  destruct (Nat.eqb_spec (atomic_num atom) 0) as [E0 | _].
  - intros H. injection H as <-. exists atom. split; [left; reflexivity | exact E0].
  - intros H. destruct (IH H) as (a & Ha & Hz).
    exists a. split; [right; exact Ha | exact Hz].
Qed.

(** The index the fragment is attached at is an atom of the fragment as
    soon as the fragment has an atom. *)
Lemma dummy_index_lt (fg : Mol) :
  atoms fg <> [] -> dummy_index fg < GetNumAtoms fg.
Proof.
  intros Hne. unfold dummy_index.
  destruct (find_dummy (enumerate (atoms fg))) as [d |] eqn:E.
  - apply find_dummy_spec in E. destruct E as (a & Ha & _).
    apply enumerate_fst_lt in Ha. exact Ha.
  - unfold GetNumAtoms. destruct (atoms fg); [contradiction | cbn; lia].
Qed.

(** Without a hydrogen to substitute the function returns [None], writes
    nothing and raises nothing, whatever the fragment is. *)
Lemma attach_no_hydrogen (mol : Mol) (fg_smiles : string) :
  find_hydrogen (AddHs mol) (enumerate (atoms (AddHs mol))) = None ->
  attach_functional_group mol fg_smiles = ([], Ok None).
Proof.
  intros Hnone. unfold attach_functional_group.
  destruct (MolFromSmiles fg_smiles) as [fg |]; [| reflexivity].
  cbv zeta. rewrite Hnone. reflexivity.
Qed.

(** A fragment text that does not parse gives [None] as well. *)
Lemma attach_invalid_fragment (mol : Mol) (fg_smiles : string) :
  MolFromSmiles fg_smiles = None ->
  attach_functional_group mol fg_smiles = ([], Ok None).
Proof.
  intros Hnone. unfold attach_functional_group. rewrite Hnone. reflexivity.
Qed.

(** What the function does once a hydrogen is found: each step up to the
    sanitization succeeds, and the molecule handed to the sanitization
    is the base without the hydrogen next to the fragment without its
    atom [dummy_index fg]. *)
Lemma attach_pipeline (mol fg : Mol) (fg_smiles : string) (h heavy : nat) :
  wf_mol mol = true ->
  MolFromSmiles fg_smiles = Some fg ->
  atoms fg <> [] ->
  find_hydrogen (AddHs mol) (enumerate (atoms (AddHs mol))) = Some (h, heavy) ->
  exists mol_no_H new_mol fg',
    RemoveAtom h (AddHs mol) = Ok mol_no_H
    /\ AddBond (if h <? heavy then heavy - 1 else heavy)
               (GetNumAtoms mol_no_H + dummy_index fg) SINGLE
               (CombineMols mol_no_H fg) = Ok new_mol
    /\ RemoveAtom (dummy_index fg) fg = Ok fg'
    /\ RemoveAtom (GetNumAtoms mol_no_H + dummy_index fg) new_mol
       = Ok (CombineMols mol_no_H fg')
    /\ wf_mol mol_no_H = true
    /\ attach_functional_group mol fg_smiles
       = ([], match SanitizeMol (CombineMols mol_no_H fg') with
              | Ok final_mol => Ok (Some final_mol)
              | Raise e => Raise e
              end).
Proof.
  intros Hwf Hparse Hne Hfind.
  pose proof (AddHs_wf mol Hwf) as Wh.
  destruct (find_hydrogen_spec _ _ _ _ Hfind) as [(a & Ha & _) Hn].
  apply enumerate_fst_lt in Ha.
  destruct (neighbors_wf _ _ _ Wh Hn) as [Hheavy Hneq].
  pose proof (RemoveAtom_ok h (AddHs mol) Ha) as HR.
  set (mol_no_H := mkMol _ _) in HR.
  destruct (RemoveAtom_wf h (AddHs mol) mol_no_H Wh HR) as (Wn & Ln & _).
  assert (Hh' : (if h <? heavy then heavy - 1 else heavy) < GetNumAtoms mol_no_H).
  { rewrite Ln. fold (GetNumAtoms (AddHs mol)) in Ha.
    destruct (Nat.ltb_spec h heavy); lia. }
  destruct (bond_then_remove mol_no_H fg _ (dummy_index fg) SINGLE Wn Hh'
              (dummy_index_lt fg Hne)) as (new_mol & fg' & HA & HF & HD).
  exists mol_no_H, new_mol, fg'.
  repeat (split; [assumption |]).
  unfold attach_functional_group. rewrite Hparse. cbv zeta.
  rewrite Hfind, HR. unfold lift at 1. cbn [bindU].
  rewrite HA. unfold lift at 1. cbn [bindU].
  unfold remove_dummy. rewrite HD. unfold ret at 1. cbn [bindU].
  unfold lift, ret.
  destruct (SanitizeMol (CombineMols mol_no_H fg')); reflexivity.
Qed.

(** Hence no bond of the returned molecule joins an atom of the base to
    an atom of the fragment: the functional group is never attached. *)
Lemma attach_never_joins (L : ToolkitLaws T)
      (mol fg : Mol) (fg_smiles : string) (h heavy : nat)
      (out : list ui_event) (final_mol : Mol) :
  wf_mol mol = true ->
  MolFromSmiles fg_smiles = Some fg ->
  atoms fg <> [] ->
  find_hydrogen (AddHs mol) (enumerate (atoms (AddHs mol))) = Some (h, heavy) ->
  attach_functional_group mol fg_smiles = (out, Ok (Some final_mol)) ->
  let n_atoms_main := GetNumAtoms (AddHs mol) - 1 in
  forall i j, In (i, j) (bond_ends final_mol) ->
              (i < n_atoms_main /\ j < n_atoms_main)
              \/ (n_atoms_main <= i /\ n_atoms_main <= j).
Proof.
  intros Hwf Hparse Hne Hfind Hret n_atoms_main i j Hin.
  destruct (attach_pipeline mol fg fg_smiles h heavy Hwf Hparse Hne Hfind)
    as (mol_no_H & new_mol & fg' & HR & _ & _ & _ & Wn & Heq).
  rewrite Heq in Hret.
  destruct (SanitizeMol (CombineMols mol_no_H fg')) as [m |] eqn:ES;
    [| discriminate].
  injection Hret as _ <-.
  rewrite (sanitize_bond_ends _ _ ES) in Hin.
  destruct (RemoveAtom_wf h (AddHs mol) mol_no_H (AddHs_wf mol Hwf) HR)
    as (_ & Ln & _).
  unfold n_atoms_main. rewrite <- Ln.
  unfold bond_ends, CombineMols in Hin. cbn [bonds] in Hin.
  rewrite map_app, map_map in Hin. apply in_app_or in Hin.
  destruct Hin as [Hin | Hin]; apply in_map_iff in Hin;
    destruct Hin as (b & Hb & HI).
  - left. apply (proj1 (wf_mol_spec mol_no_H) Wn) in HI.
    injection Hb as <- <-. lia.
  - right. cbn [shift_bond begin_idx end_idx] in Hb.
    injection Hb as <- <-. lia.
Qed.

End WithToolkit.

End AttachFacts.

Module AttachClaims.
Import Py RDKit RDKitFacts Lipinski AttachFacts.
Local Open Scope string_scope.
Local Open Scope nat_scope.
Local Open Scope list_scope.

Lemma TableToolkit_laws : ToolkitLaws TableToolkit.
Proof.
  constructor; intros m m' H; cbn [SanitizeMol TableToolkit] in H;
    destruct (valences_ok m); try discriminate; injection H as <-; reflexivity.
Qed.

(** The skeleton test accepts the product the attachment is meant to give. *)
Example propane_has_propane_skeleton : propane_skeleton propane = true.
Proof. reflexivity. Qed.

(** C1, evaluated at methyl on ethane.  The function finds the hydrogen
    (atom 2) of the first carbon, removes it, merges the fragment, bonds
    carbon 0 to the placeholder and removes the placeholder; the bond goes
    with the placeholder, so the molecule handed to the sanitization and
    returned is ethane less one hydrogen with the carbon of the fragment
    bonded to nothing.  Whatever the sanitization makes of it, the result
    has one carbon-carbon bond and an unbonded carbon: it is not propane. *)
Theorem attach_methyl_to_ethane_detached (T : Toolkit) (L : ToolkitLaws T) :
  MolFromSmiles "[*:1]C" = Some methyl_fragment ->
  attach_functional_group ethane "[*:1]C"
  = ([], match SanitizeMol detached_product with
         | Ok final_mol => Ok (Some final_mol)
         | Raise e => Raise e
         end)
  /\ forall out final_mol,
       attach_functional_group ethane "[*:1]C" = (out, Ok (Some final_mol)) ->
       elements final_mol = [6; 6; 1; 1; 1; 1; 1; 6]
       /\ bond_ends final_mol = [(0, 1); (0, 2); (0, 3); (1, 4); (1, 5); (1, 6)]
       /\ degree (bond_ends final_mol) 7 = 0
       /\ propane_skeleton final_mol = false.
Proof.
  intros Hparse.
  assert (E : attach_functional_group ethane "[*:1]C"
              = ([], match SanitizeMol detached_product with
                     | Ok final_mol => Ok (Some final_mol)
                     | Raise e => Raise e
                     end)).
  { unfold attach_functional_group. rewrite Hparse.
    change (find_hydrogen (AddHs ethane) (enumerate (atoms (AddHs ethane))))
      with (Some (2, 0)).
    cbv zeta. cbv iota beta.
    change (RemoveAtom 2 (AddHs ethane))
      with (Ok (mkMol [carbon 0; carbon 0; hydrogen; hydrogen; hydrogen;
                       hydrogen; hydrogen]
                      [mkBond 0 1 SINGLE; mkBond 0 2 SINGLE; mkBond 0 3 SINGLE;
                       mkBond 1 4 SINGLE; mkBond 1 5 SINGLE; mkBond 1 6 SINGLE])).
    unfold lift at 1. cbn [bindU].
    match goal with
    | |- context [AddBond ?i ?j ?o ?m] =>
        let r := eval vm_compute in (AddBond i j o m) in
        change (AddBond i j o m) with r
    end.
    unfold lift at 1. cbn [bindU].
    match goal with
    | |- context [remove_dummy ?i ?m] =>
        change (remove_dummy i m) with (ret detached_product)
    end.
    unfold ret at 1. cbn [bindU]. unfold lift, ret.
    destruct (SanitizeMol detached_product); reflexivity. }
  split; [exact E |].
  intros out final_mol Hret. rewrite E in Hret.
  destruct (SanitizeMol detached_product) as [m |] eqn:ES; [| discriminate].
  injection Hret as _ <-.
  pose proof (sanitize_elements _ _ ES) as He.
  pose proof (sanitize_bond_ends _ _ ES) as Hb.
  unfold propane_skeleton. rewrite He, Hb.
  repeat split; reflexivity.
Qed.

Lemma attach_methyl_to_ethane_detached_witness :
  MolFromSmiles (Toolkit := TableToolkit) "[*:1]C" = Some methyl_fragment
  /\ attach_functional_group (T := TableToolkit) ethane "[*:1]C"
     = ([], Ok (Some detached_product))
  /\ propane_skeleton detached_product = false.
Proof.
  assert (H : MolFromSmiles (Toolkit := TableToolkit) "[*:1]C"
              = Some methyl_fragment) by reflexivity.
  split; [exact H |].
  destruct (attach_methyl_to_ethane_detached TableToolkit TableToolkit_laws H)
    as [E Hnot].
  assert (E' : attach_functional_group (T := TableToolkit) ethane "[*:1]C"
               = ([], Ok (Some detached_product))).
  { rewrite E. reflexivity. }
  split; [exact E' |].
  apply (Hnot [] detached_product E').
Defined.

(** A fragment without any atom has no atom 0 to fall back to: the bond
    cannot be added and the function raises. *)
Lemma attach_empty_fragment_raises (T : Toolkit) :
  forall (mol : Mol) (fg_smiles : string) (h heavy : nat),
    wf_mol mol = true ->
    MolFromSmiles fg_smiles = Some (mkMol [] []) ->
    find_hydrogen (AddHs mol) (enumerate (atoms (AddHs mol))) = Some (h, heavy) ->
    attach_functional_group mol fg_smiles = ([], Raise RuntimeError).
Proof.
  intros mol fg_smiles h heavy Hwf Hparse Hfind.
  destruct (find_hydrogen_spec _ _ _ _ Hfind) as [(a & Ha & _) _].
  apply enumerate_fst_lt in Ha.
  unfold attach_functional_group. rewrite Hparse. cbv zeta.
  rewrite Hfind, (RemoveAtom_ok h (AddHs mol) Ha).
  unfold lift at 1. cbn [bindU].
  unfold AddBond, CombineMols, GetNumAtoms. cbn [atoms bonds dummy_index].
  rewrite app_nil_r.
  match goal with
  | |- context [?n + dummy_index ?fg] =>
      change (dummy_index fg) with 0; rewrite (Nat.add_0_r n), (Nat.ltb_irrefl n)
  end.
  rewrite andb_false_r. reflexivity.
Qed.

(** C9, the input that refutes the claim as worded: methane parses and has
    no dummy atom, and on carbon dioxide, which has no hydrogen to
    substitute, the function returns the failure signal None. *)
Lemma attach_without_dummy_counterexample :
  MolFromSmiles (Toolkit := TableToolkit) "C" = Some methane
  /\ find_dummy (enumerate (atoms methane)) = None
  /\ attach_functional_group (T := TableToolkit) carbon_dioxide "C"
     = ([], Ok None).
Proof. repeat split; reflexivity. Qed.

(** C9, as the code behaves.  A fragment that parses and has no dummy atom
    is not rejected for that: with a hydrogen found on the base and an atom
    at index 0 of the fragment, the function takes atom 0 as the attachment
    point, the bond from the heavy atom to it is added, that atom is
    removed, nothing is written to the page, and the outcome is that of the
    final sanitization of the base without the hydrogen next to the
    fragment without its atom 0.  No step checks that the fragment carries
    an attachment point. *)
Theorem attach_without_dummy_falls_back_to_atom_0 (T : Toolkit) :
  forall (mol fg : Mol) (fg_smiles : string) (h heavy : nat),
    wf_mol mol = true ->
    MolFromSmiles fg_smiles = Some fg ->
    find_dummy (enumerate (atoms fg)) = None ->
    atoms fg <> [] ->
    find_hydrogen (AddHs mol) (enumerate (atoms (AddHs mol))) = Some (h, heavy) ->
    dummy_index fg = 0
    /\ exists mol_no_H new_mol fg',
         RemoveAtom h (AddHs mol) = Ok mol_no_H
         /\ AddBond (if h <? heavy then heavy - 1 else heavy)
                    (GetNumAtoms mol_no_H + 0) SINGLE
                    (CombineMols mol_no_H fg) = Ok new_mol
         /\ RemoveAtom 0 fg = Ok fg'
         /\ RemoveAtom (GetNumAtoms mol_no_H + 0) new_mol
            = Ok (CombineMols mol_no_H fg')
         /\ attach_functional_group mol fg_smiles
            = ([], match SanitizeMol (CombineMols mol_no_H fg') with
                   | Ok final_mol => Ok (Some final_mol)
                   | Raise e => Raise e
                   end).
Proof.
  intros mol fg fg_smiles h heavy Hwf Hparse Hnodummy Hne Hfind.
  assert (H0 : dummy_index fg = 0).
  { unfold dummy_index. rewrite Hnodummy. reflexivity. }
  split; [exact H0 |].
  destruct (attach_pipeline mol fg fg_smiles h heavy Hwf Hparse Hne Hfind)
    as (mol_no_H & new_mol & fg' & HR & HA & HF & HD & _ & Heq).
  rewrite H0 in HA, HF, HD.
  exists mol_no_H, new_mol, fg'. repeat (split; [assumption |]). exact Heq.
Qed.

Lemma attach_without_dummy_falls_back_to_atom_0_witness :
  wf_mol ethane = true
  /\ MolFromSmiles (Toolkit := TableToolkit) "CO" = Some methanol
  /\ find_dummy (enumerate (atoms methanol)) = None
  /\ find_hydrogen (AddHs ethane) (enumerate (atoms (AddHs ethane))) = Some (2, 0)
  /\ exists final_mol,
       attach_functional_group (T := TableToolkit) ethane "CO"
       = ([], Ok (Some final_mol))
       /\ elements final_mol = [6; 6; 1; 1; 1; 1; 1; 8].
Proof.
  assert (H1 : wf_mol ethane = true) by reflexivity.
  assert (H2 : MolFromSmiles (Toolkit := TableToolkit) "CO" = Some methanol)
    by reflexivity.
  assert (H3 : find_dummy (enumerate (atoms methanol)) = None) by reflexivity.
  assert (H4 : atoms methanol <> []) by discriminate.
  assert (H5 : find_hydrogen (AddHs ethane) (enumerate (atoms (AddHs ethane)))
               = Some (2, 0)) by reflexivity.
  repeat (split; [assumption |]).
  destruct (attach_without_dummy_falls_back_to_atom_0
              TableToolkit ethane methanol "CO" 2 0 H1 H2 H3 H4 H5)
    as (_ & mol_no_H & new_mol & fg' & HR & _ & HF & _ & Heq).
  injection HR as <-. injection HF as <-.
  eexists. split; [rewrite Heq; reflexivity | reflexivity].
Defined.

End AttachClaims.

(** ** The editor *)

Module EditorFacts.
Import Py RDKit Lipinski.
Local Open Scope string_scope.
Local Open Scope list_scope.

Section WithToolkit.
Context {T : Toolkit}.

Lemma error_message_not_empty (e : exn) : ("Error: " ++ str e)%string <> "".
Proof. cbn. discriminate. Qed.

(** A failed edit of the button only sets the message. *)
Lemma add_group_failed (s : SessionState) (g : FunctionalGroup) :
  attachment_fails s g ->
  exists out msg, add_group s g = (out, set_message s msg) /\ msg <> "".
Proof.
  unfold attachment_fails, add_group.
  destruct (MolFromSmiles (current_molecule s)) as [mol |].
  - destruct (attach_functional_group mol (functional_groups g)) as [out r].
    cbn [snd]. destruct r as [[new_mol |] | e].
    + intros [e He]. rewrite He. exists out, ("Error: " ++ str e)%string.
      split; [reflexivity | apply error_message_not_empty].
    + intros _. exists out, "Invalid modification!".
      split; [reflexivity | discriminate].
    + intros _. exists out, ("Error: " ++ str e)%string.
      split; [reflexivity | apply error_message_not_empty].
  - intros _. exists [], "Current molecule is invalid!".
    split; [reflexivity | discriminate].
Qed.

(** A text that does not parse only sets the message. *)
Lemma enter_smiles_invalid (s : SessionState) (typed : string) :
  typed <> current_molecule s -> MolFromSmiles typed = None ->
  enter_smiles s typed = set_message s "Invalid SMILES!".
Proof.
  intros Hne Hnone. unfold enter_smiles.
  apply String.eqb_neq in Hne. rewrite Hne, Hnone. reflexivity.
Qed.

Lemma show_message_nonempty (s : SessionState) (msg : string) :
  msg <> "" ->
  show_message (set_message s msg) = ([StInfo msg], set_message s "").
Proof.
  intros Hne. unfold show_message. cbn [message set_message].
  apply String.eqb_neq in Hne. rewrite Hne. reflexivity.
Qed.

(** A typed text that differs and parses is stored, with its message. *)
Lemma enter_smiles_valid (s : SessionState) (typed : string) (m : Mol) :
  typed <> current_molecule s -> MolFromSmiles typed = Some m ->
  enter_smiles s typed = accept_molecule s typed "SMILES updated successfully!".
Proof.
  intros Hne Hsome. unfold enter_smiles.
  apply String.eqb_neq in Hne. rewrite Hne, Hsome. reflexivity.
Qed.

(** C3. A failed edit leaves the current molecule as that edit found it and
    sets a failure message.  A click on "Add Group" whose attachment fails
    (the current text does not parse, the attachment returns None or
    raises, or the product cannot be written back) changes nothing but the
    message; so does a typed text that does not parse.  A run of the editor
    in which every edit attempted fails shows a message with [st.info] and
    ends in the session it started from, the message cleared.  A run in
    which the click fails and the typed text differs and parses ends with
    the typed text as the molecule, and the message it shows is the text
    box's: the click's failure message is replaced before it is shown. *)
Theorem failed_edit_keeps_current_molecule :
  (forall s g, attachment_fails s g ->
      current_molecule (snd (add_group s g)) = current_molecule s
      /\ message (snd (add_group s g)) <> "")
  /\ (forall s typed,
        typed <> current_molecule s -> MolFromSmiles typed = None ->
        current_molecule (enter_smiles s typed) = current_molecule s
        /\ message (enter_smiles s typed) = "Invalid SMILES!")
  /\ (forall s inp,
        (add_group_clicked inp = true -> attachment_fails s (selected_group inp)) ->
        (smiles_input inp <> current_molecule s ->
         MolFromSmiles (smiles_input inp) = None) ->
        add_group_clicked inp = true \/ smiles_input inp <> current_molecule s ->
        exists out msg,
          functional_group_editor s inp = (out, set_message s "")
          /\ current_molecule (snd (functional_group_editor s inp))
             = current_molecule s
          /\ msg <> "" /\ In (StInfo msg) out)
  /\ (forall s inp m,
        add_group_clicked inp = true -> attachment_fails s (selected_group inp) ->
        smiles_input inp <> current_molecule s ->
        MolFromSmiles (smiles_input inp) = Some m ->
        functional_group_editor s inp
        = (fst (add_group s (selected_group inp))
             ++ [StInfo "SMILES updated successfully!"],
           accept_molecule s (smiles_input inp) "")).
Proof.
  split; [| split; [| split]].
  - intros s g Hf. destruct (add_group_failed s g Hf) as (out & msg & E & Hm).
    rewrite E. cbn [snd current_molecule set_message message]. auto.
  - intros s typed Hne Hnone. rewrite (enter_smiles_invalid s typed Hne Hnone).
    split; reflexivity.
  - intros s [clicked g typed] Hclick Htyped Hsome.
    cbn [add_group_clicked selected_group smiles_input] in *.
    unfold functional_group_editor.
    cbn [add_group_clicked selected_group smiles_input].
    destruct clicked.
    + destruct (add_group_failed s g (Hclick eq_refl)) as (out & msg & E & Hm).
      rewrite E.
      destruct (String.eqb_spec typed (current_molecule s)) as [Heq | Hne].
      * unfold enter_smiles. cbn [current_molecule set_message].
        rewrite Heq, String.eqb_refl.
        rewrite (show_message_nonempty s msg Hm).
        exists (out ++ [StInfo msg]), msg.
        repeat split; [exact Hm | apply in_or_app; right; left; reflexivity].
      * rewrite (enter_smiles_invalid (set_message s msg) typed Hne (Htyped Hne)).
        change (set_message (set_message s msg) "Invalid SMILES!")
          with (set_message s "Invalid SMILES!").
        rewrite (show_message_nonempty s "Invalid SMILES!") by discriminate.
        exists (out ++ [StInfo "Invalid SMILES!"]), "Invalid SMILES!".
        repeat split; [discriminate | apply in_or_app; right; left; reflexivity].
    + destruct Hsome as [Hc | Hne]; [discriminate |].
      rewrite (enter_smiles_invalid s typed Hne (Htyped Hne)).
      rewrite (show_message_nonempty s "Invalid SMILES!") by discriminate.
      exists ([] ++ [StInfo "Invalid SMILES!"]), "Invalid SMILES!".
      repeat split; [discriminate | left; reflexivity].
  - intros s [clicked g typed] m Hclick Hfail Hne Hsome.
    cbn [add_group_clicked selected_group smiles_input] in *. subst clicked.
    unfold functional_group_editor.
    cbn [add_group_clicked selected_group smiles_input].
    destruct (add_group_failed s g Hfail) as (out & msg & E & Hm).
    rewrite E. cbn [fst].
    rewrite (enter_smiles_valid (set_message s msg) typed m Hne Hsome).
    reflexivity.
Qed.

End WithToolkit.

(** A failed click and a typed text that parses, in one run: carbon
    dioxide has no hydrogen to substitute, and the text box holds "CC".
    The run shows the text box's message only and the molecule is "CC". *)
Lemma failed_click_with_valid_text_counterexample :
  attachment_fails (T := TableToolkit)
    (mkSession 0 "O=C=O" "tutorial" "" false None None) Methyl
  /\ functional_group_editor (T := TableToolkit)
       (mkSession 0 "O=C=O" "tutorial" "" false None None)
       (mkInput true Methyl "CC")
     = ([StInfo "SMILES updated successfully!"],
        mkSession 0 "CC" "tutorial" "" false None (Some false)).
Proof.
  split; [exact I | reflexivity].
Qed.

(** A click on "Add Group" with carbon dioxide as the current molecule:
    there is no hydrogen to substitute. *)
Lemma failed_edit_keeps_current_molecule_witness :
  attachment_fails (T := TableToolkit)
    (mkSession 0 "O=C=O" "tutorial" "" false None None) Methyl
  /\ exists out msg,
       functional_group_editor (T := TableToolkit)
         (mkSession 0 "O=C=O" "tutorial" "" false None None)
         (mkInput true Methyl "O=C=O")
       = (out, mkSession 0 "O=C=O" "tutorial" "" false None None)
       /\ current_molecule
            (snd (functional_group_editor (T := TableToolkit)
                    (mkSession 0 "O=C=O" "tutorial" "" false None None)
                    (mkInput true Methyl "O=C=O")))
          = "O=C=O"
       /\ msg <> "" /\ In (StInfo msg) out.
Proof.
  assert (H : attachment_fails (T := TableToolkit)
                (mkSession 0 "O=C=O" "tutorial" "" false None None) Methyl).
  { exact I. }
  split; [exact H |].
  exact (proj1 (proj2 (proj2 (failed_edit_keeps_current_molecule (T := TableToolkit))))
           (mkSession 0 "O=C=O" "tutorial" "" false None None)
           (mkInput true Methyl "O=C=O")
           (fun _ => H)
           (fun Hne => False_ind _ (Hne eq_refl))
           (or_introl eq_refl)).
Defined.

End EditorFacts.

(* ================================================================== *)
(** * Further properties of the formula pages *)
(* ================================================================== *)

Module PKMore.
Import Py PyFacts PK.
Local Open Scope R_scope.

Lemma set_nth_middle (done rest : Np.ndarray) (x v : R) :
  Np.set_nth (done ++ x :: rest) (length done) v = done ++ v :: rest.
Proof.
  induction done as [| d done IH]; cbn [app length Np.set_nth]; [reflexivity |].
  rewrite IH. reflexivity.
Qed.

Lemma infusion_step_value (R_inf V k T_inf time : R) (done rest : Np.ndarray) (x : R) :
  k <> 0 -> V <> 0 ->
  infusion_step R_inf V k T_inf (length done, time) (done ++ x :: rest)
  = Ok (done ++ infusion_value R_inf V k T_inf time :: rest).
Proof.
  intros Hk HV. unfold infusion_step, infusion_value.
  rewrite (truediv_ok R_inf k Hk). cbn [bind].
  rewrite (truediv_ok (R_inf / k) V HV). cbn [bind].
  unfold Np.setitem.
  assert (Hlt : (length done <? length (done ++ x :: rest))%nat = true).
  { apply Nat.ltb_lt. rewrite length_app. cbn [length]. lia. }
  rewrite Hlt.
  destruct (Rle_dec time T_inf); rewrite set_nth_middle; reflexivity.
Qed.

Lemma infusion_loop_values (R_inf V k T_inf : R) (ts : list R) :
  k <> 0 -> V <> 0 ->
  forall done : Np.ndarray,
    for_each (combine (seq (length done) (length ts)) ts)
             (infusion_step R_inf V k T_inf)
             (done ++ repeat 0 (length ts))
    = Ok (done ++ map (infusion_value R_inf V k T_inf) ts).
Proof.
  intros Hk HV. induction ts as [| time ts IH]; intros done.
  - reflexivity.
  - cbn [length seq combine for_each repeat map].
    rewrite (infusion_step_value R_inf V k T_inf time done _ 0 Hk HV).
    cbn [bind].
    specialize (IH (done ++ [infusion_value R_inf V k T_inf time])).
    rewrite length_app in IH. cbn [length] in IH.
    rewrite Nat.add_1_r, <- !app_assoc in IH. exact IH.
Qed.

(** X1. With non-zero k and V the index loop of the infusion model computes,
    at every position, the closed form of that position's own time point:
    the result is the array of [infusion_value] over [t]. *)
Theorem infusion_is_pointwise :
  forall (t : Np.ndarray) R_inf V k T_inf,
    k <> 0 -> V <> 0 ->
    one_compartment_infusion t R_inf V k T_inf
    = Ok (map (infusion_value R_inf V k T_inf) t).
Proof.
  intros t R_inf V k T_inf Hk HV.
  unfold one_compartment_infusion, enumerate, Np.zeros_like.
  exact (infusion_loop_values R_inf V k T_inf t Hk HV []).
Qed.

Lemma infusion_is_pointwise_witness :
  one_compartment_infusion [0; 1; 2] 100 50 0.5 1
  = Ok (map (infusion_value 100 50 0.5 1) [0; 1; 2]).
Proof.
  apply infusion_is_pointwise; lra.
Defined.

End PKMore.





(* ================================================================== *)
(** * Further properties of the Lipinski game *)
(* ================================================================== *)

Module AttachMore.
Import Py RDKit RDKitFacts Lipinski AttachFacts.
Local Open Scope string_scope.
Local Open Scope nat_scope.
Local Open Scope list_scope.

Lemma AddBond_in_range (i j : nat) (order : BondType) (m m' : Mol) :
  AddBond i j order m = Ok m' -> j < GetNumAtoms m'.
Proof.
  unfold AddBond.
  destruct (Nat.ltb_spec i (GetNumAtoms m)) as [Hi | Hi]; cbn [andb];
    [| discriminate].
  destruct (Nat.ltb_spec j (GetNumAtoms m)) as [Hj | Hj]; cbn [andb];
    [| discriminate].
  destruct (negb (i =? j) && negb (existsb (joins i j) (bonds m)));
    [| discriminate].
  intros E. injection E as <-. exact Hj.
Qed.

(** X21. The attachment never writes to the page: the message "Error
    removing dummy atom" of its exception handler cannot appear, because
    the atom it removes is the one the bond was just added to. *)
Theorem attach_writes_nothing (T : Toolkit) :
  forall (mol : Mol) (fg_smiles : string),
    fst (attach_functional_group mol fg_smiles) = [].
Proof.
  intros mol fg_smiles. unfold attach_functional_group.
  destruct (MolFromSmiles fg_smiles) as [fg |]; [| reflexivity].
  cbv zeta.
  destruct (find_hydrogen (AddHs mol) (enumerate (atoms (AddHs mol))))
    as [[h heavy] |]; [| reflexivity].
  destruct (RemoveAtom h (AddHs mol)) as [mol_no_H | e]; [| reflexivity].
  unfold lift at 1. cbn [bindU].
  destruct (AddBond _ _ SINGLE (CombineMols mol_no_H fg)) as [new_mol | e] eqn:HA;
    [| reflexivity].
  unfold lift at 1. cbn [bindU].
  apply AddBond_in_range in HA. unfold remove_dummy.
  rewrite (RemoveAtom_ok _ new_mol HA). unfold ret at 1. cbn [bindU].
  unfold lift, ret.
  destruct (SanitizeMol _); reflexivity.
Qed.

Lemma drop_nth_nth_error {A} (h i : nat) (l : list A) :
  i <> h ->
  nth_error (drop_nth h l) (renumber h i) = nth_error l i.
Proof.
  intros Hne. unfold drop_nth, renumber.
  destruct (Nat.ltb_spec h i) as [Hlt | Hge].
  - destruct (Nat.le_gt_cases (length l) h) as [Hout | Hin].
    + rewrite (skipn_all2 l) by lia. rewrite app_nil_r, firstn_all2 by lia.
      rewrite (proj2 (nth_error_None l (i - 1))) by lia.
      rewrite (proj2 (nth_error_None l i)) by lia. reflexivity.
    + rewrite nth_error_app2 by (rewrite length_firstn; lia).
      rewrite length_firstn, Nat.min_l by lia.
      rewrite nth_error_skipn. f_equal. lia.
  - assert (Hi : i < h) by lia.
    destruct (Nat.le_gt_cases (length l) i) as [Hout | Hin].
    + rewrite (proj2 (nth_error_None l i)) by lia.
      apply nth_error_None. rewrite length_app, length_firstn, length_skipn. lia.
    + rewrite nth_error_app1 by (rewrite length_firstn; lia).
      rewrite nth_error_firstn.
      apply Nat.ltb_lt in Hi. rewrite Hi. reflexivity.
Qed.

(** X22. The index fix-up after the hydrogen is removed ("if hydrogen came
    before heavy atom") is right: in the molecule without the hydrogen,
    the adjusted heavy index denotes the atom that was the hydrogen's
    neighbour, and that atom exists. *)
Theorem heavy_index_is_adjusted_correctly (T : Toolkit) :
  forall (mol mol_no_H : Mol) (h heavy : nat),
    wf_mol mol = true ->
    find_hydrogen (AddHs mol) (enumerate (atoms (AddHs mol))) = Some (h, heavy) ->
    RemoveAtom h (AddHs mol) = Ok mol_no_H ->
    exists atom,
      nth_error (atoms (AddHs mol)) heavy = Some atom
      /\ nth_error (atoms mol_no_H) (if h <? heavy then heavy - 1 else heavy)
         = Some atom.
Proof.
  intros mol mol_no_H h heavy Hwf Hfind HR.
  pose proof (AddHs_wf mol Hwf) as Wh.
  destruct (find_hydrogen_spec _ _ _ _ Hfind) as [(a & Ha & _) Hn].
  apply enumerate_fst_lt in Ha.
  destruct (neighbors_wf _ _ _ Wh Hn) as [Hheavy Hneq].
  rewrite (RemoveAtom_ok h (AddHs mol) Ha) in HR. injection HR as <-.
  cbn [atoms].
  destruct (nth_error (atoms (AddHs mol)) heavy) as [atom |] eqn:E.
  - exists atom. split; [reflexivity |].
    rewrite <- E. apply (drop_nth_nth_error h heavy). exact Hneq.
  - apply nth_error_None in E. unfold GetNumAtoms in Hheavy. lia.
Qed.

Lemma heavy_index_is_adjusted_correctly_witness :
  find_hydrogen (AddHs (mkMol [hydrogen; carbon 3] [mkBond 0 1 SINGLE]))
    (enumerate (atoms (AddHs (mkMol [hydrogen; carbon 3] [mkBond 0 1 SINGLE]))))
  = Some (0, 1)
  /\ exists atom,
       nth_error (atoms (AddHs (mkMol [hydrogen; carbon 3] [mkBond 0 1 SINGLE]))) 1
       = Some atom
       /\ nth_error [carbon 0; hydrogen; hydrogen; hydrogen] 0 = Some atom.
Proof.
  split; [reflexivity |].
  exact (heavy_index_is_adjusted_correctly TableToolkit
           (mkMol [hydrogen; carbon 3] [mkBond 0 1 SINGLE])
           (mkMol [carbon 0; hydrogen; hydrogen; hydrogen]
                  [mkBond 0 1 SINGLE; mkBond 0 2 SINGLE; mkBond 0 3 SINGLE])
           0 1 eq_refl eq_refl eq_refl).
Defined.

(** X24. No fragment is ever attached: for every well-formed base molecule
    and every fragment with an atom, no bond of the molecule the function
    returns joins an atom of the base (the first atoms, up to the count of
    the base with its hydrogens less one) to an atom of the fragment. *)
Theorem attach_leaves_fragment_unbonded (T : Toolkit) (L : ToolkitLaws T) :
  forall (mol fg : Mol) (fg_smiles : string) (out : list ui_event) (final_mol : Mol),
    wf_mol mol = true ->
    MolFromSmiles fg_smiles = Some fg ->
    atoms fg <> [] ->
    attach_functional_group mol fg_smiles = (out, Ok (Some final_mol)) ->
    let n_atoms_main := GetNumAtoms (AddHs mol) - 1 in
    forall i j, In (i, j) (bond_ends final_mol) ->
                (i < n_atoms_main /\ j < n_atoms_main)
                \/ (n_atoms_main <= i /\ n_atoms_main <= j).
Proof.
  intros mol fg fg_smiles out final_mol Hwf Hparse Hne Hret n_atoms_main i j Hin.
  destruct (find_hydrogen (AddHs mol) (enumerate (atoms (AddHs mol))))
    as [[h heavy] |] eqn:Hfind.
  - destruct (attach_pipeline mol fg fg_smiles h heavy Hwf Hparse Hne Hfind)
      as (mol_no_H & new_mol & fg' & HR & _ & _ & _ & Wn & Heq).
    rewrite Heq in Hret.
    destruct (SanitizeMol (CombineMols mol_no_H fg')) as [m |] eqn:ES;
      [| discriminate].
    injection Hret as _ <-.
    rewrite (sanitize_bond_ends _ _ ES) in Hin.
    destruct (RemoveAtom_wf h (AddHs mol) mol_no_H (AddHs_wf mol Hwf) HR)
      as (_ & Ln & _).
    unfold n_atoms_main. rewrite <- Ln.
    unfold bond_ends, CombineMols in Hin. cbn [bonds] in Hin.
    rewrite map_app, map_map in Hin. apply in_app_or in Hin.
    destruct Hin as [Hin | Hin]; apply in_map_iff in Hin;
      destruct Hin as (b & Hb & HI).
    + left. apply (proj1 (wf_mol_spec mol_no_H) Wn) in HI.
      injection Hb as <- <-. lia.
    + right. cbn [shift_bond begin_idx end_idx] in Hb.
      injection Hb as <- <-. lia.
  - unfold attach_functional_group in Hret. rewrite Hparse in Hret.
    cbv zeta in Hret. rewrite Hfind in Hret. discriminate.
Qed.

Lemma attach_leaves_fragment_unbonded_witness :
  Forall (fun b => (fst b < 7 /\ snd b < 7) \/ (7 <= fst b /\ 7 <= snd b))
         (bond_ends detached_product).
Proof.
  apply Forall_forall. intros [i j] Hin.
  exact (attach_leaves_fragment_unbonded TableToolkit AttachClaims.TableToolkit_laws
           ethane methyl_fragment "[*:1]C" [] detached_product
           eq_refl eq_refl ltac:(discriminate) eq_refl i j Hin).
Defined.

End AttachMore.

Module GameFacts.
Import Py RDKit Lipinski.
Local Open Scope string_scope.
Local Open Scope list_scope.

Lemma table_lookup_in (t : list (string * Mol)) (k : string) (m : Mol) :
  In (k, m) t -> table_lookup t k <> None.
Proof.
  induction t as [| [k' m'] t IH]; cbn [In table_lookup]; [contradiction |].
  intros [E | Hin].
  - injection E as -> ->. rewrite String.eqb_refl. discriminate.
  - destruct (String.eqb k' k); [discriminate | apply IH, Hin].
Qed.

(** The table toolkit writes only texts it reads back. *)
Lemma TableToolkit_writes_readable (m : Mol) (x : string) :
  MolToSmiles (Toolkit := TableToolkit) m = Ok x ->
  MolFromSmiles (Toolkit := TableToolkit) x <> None.
Proof.
  cbn [MolToSmiles MolFromSmiles TableToolkit]. unfold table_write.
  destruct (find _ smiles_table) as [[k m0] |] eqn:E; [| discriminate].
  intros H. injection H as <-. cbn [fst].
  apply find_some in E. destruct E as [Hin _].
  apply (table_lookup_in smiles_table k m0 Hin).
Qed.

Section WithToolkit.
Context {T : Toolkit} {Ds : Descriptors}.

(** The session after a molecule has scored. *)
Lemma display_on_check (s : SessionState) (p : Params) :
  display_parameters s (Some p) (check_lipinski_compliance (Some p))
  = Ok (if (3 <=? sum_bools (criteria p))%Z
           && (negb (game_mode s =? "tutorial") && negb (get_submitted s))
        then mkSession (score s + 1) (current_molecule s) (game_mode s)
                       (message s) (view_3d s) (start_time s) (Some true)
        else s).
Proof.
  cbn [check_lipinski_compliance display_parameters].
  change (comprehension_keys _ param_keys)
    with (Ok (criteria p)).
  cbn [bind map snd]. fold (criteria p).
  destruct (3 <=? sum_bools (criteria p))%Z; cbn [andb]; [| reflexivity].
  destruct (negb (game_mode s =? "tutorial") && negb (get_submitted s));
    reflexivity.
Qed.

Lemma display_result (s : SessionState) (params : option Params) :
  exists s',
    display_parameters s params (check_lipinski_compliance params) = Ok s'
    /\ (score s' = score s \/ score s' = (score s + 1)%Z)
    /\ (game_mode s = "tutorial" -> s' = s)
    /\ current_molecule s' = current_molecule s
    /\ game_mode s' = game_mode s
    /\ start_time s' = start_time s.
Proof.
  destruct params as [p |].
  - rewrite display_on_check.
    destruct ((3 <=? sum_bools (criteria p))%Z
              && (negb (game_mode s =? "tutorial") && negb (get_submitted s)))
      eqn:G.
    + eexists. split; [reflexivity |]. cbn.
      split; [right; reflexivity |].
      split; [| repeat split].
      intros Ht. rewrite Ht in G. cbn in G. rewrite andb_false_r in G.
      discriminate.
    + exists s. repeat split. left. reflexivity.
  - exists s. repeat split. left. reflexivity.
Qed.

(** X25. The session steps of the parameter display (what it draws is left
    out), on the outcome of the compliance check: no look-up raises, for a
    parsed molecule and for a missing one, where the [False] of the check
    is never indexed.  The display leaves the
    session as it is in tutorial mode and for a missing molecule, raises
    the score by at most one, keeps molecule, mode and message, and
    showing the same parameters again changes nothing: a refresh does not
    score twice. *)
Theorem display_scores_at_most_once :
  forall (s : SessionState) (params : option Params),
  exists s',
    display_parameters s params (check_lipinski_compliance params) = Ok s'
    /\ display_parameters s' params (check_lipinski_compliance params) = Ok s'
    /\ (score s' = score s \/ score s' = (score s + 1)%Z)
    /\ (game_mode s = "tutorial" -> s' = s)
    /\ (params = None -> s' = s)
    /\ current_molecule s' = current_molecule s
    /\ game_mode s' = game_mode s /\ message s' = message s.
Proof.
  intros s [p |].
  - destruct ((3 <=? sum_bools (criteria p))%Z
              && (negb (game_mode s =? "tutorial") && negb (get_submitted s)))
      eqn:G.
    + exists (mkSession (score s + 1) (current_molecule s) (game_mode s)
                        (message s) (view_3d s) (start_time s) (Some true)).
      split; [rewrite display_on_check, G; reflexivity |].
      split.
      { rewrite display_on_check.
        cbn [game_mode get_submitted submitted].
        rewrite !andb_false_r. reflexivity. }
      cbn [score current_molecule game_mode message].
      split; [right; reflexivity |].
      split.
      { intros Ht. rewrite Ht in G. cbn in G. rewrite andb_false_r in G.
        discriminate. }
      split; [discriminate |]. repeat split.
    + exists s.
      split; [rewrite display_on_check, G; reflexivity |].
      split; [rewrite display_on_check, G; reflexivity |].
      split; [left; reflexivity |]. repeat split.
  - exists s. repeat split. left. reflexivity.
Qed.

Lemma show_message_clears (s : SessionState) :
  message (snd (show_message s)) = ""
  /\ current_molecule (snd (show_message s)) = current_molecule s
  /\ score (snd (show_message s)) = score s
  /\ game_mode (snd (show_message s)) = game_mode s
  /\ start_time (snd (show_message s)) = start_time s
  /\ submitted (snd (show_message s)) = submitted s.
Proof.
  unfold show_message.
  destruct (String.eqb_spec (message s) "") as [E | N]; cbn [snd];
    repeat split; try reflexivity; exact E.
Qed.

Lemma add_group_keeps (s : SessionState) (g : FunctionalGroup) :
  score (snd (add_group s g)) = score s
  /\ game_mode (snd (add_group s g)) = game_mode s
  /\ start_time (snd (add_group s g)) = start_time s
  /\ (current_molecule (snd (add_group s g)) = current_molecule s
      \/ exists m, MolToSmiles m = Ok (current_molecule (snd (add_group s g)))).
Proof.
  unfold add_group.
  destruct (MolFromSmiles (current_molecule s)) as [mol |]; [| cbn; auto].
  destruct (attach_functional_group mol (functional_groups g)) as [out r].
  destruct r as [[new_mol |] | e]; [| cbn; auto | cbn; auto].
  destruct (MolToSmiles new_mol) as [x |] eqn:E; [| cbn; auto].
  cbn. repeat split; auto. right. exists new_mol. exact E.
Qed.

Lemma enter_smiles_keeps (s : SessionState) (typed : string) :
  score (enter_smiles s typed) = score s
  /\ game_mode (enter_smiles s typed) = game_mode s
  /\ start_time (enter_smiles s typed) = start_time s
  /\ (current_molecule (enter_smiles s typed) = current_molecule s
      \/ (current_molecule (enter_smiles s typed) = typed
          /\ MolFromSmiles typed <> None)).
Proof.
  unfold enter_smiles.
  destruct (String.eqb typed (current_molecule s)); [auto |].
  destruct (MolFromSmiles typed) eqn:E; cbn; repeat split; auto.
  right. split; [reflexivity | discriminate].
Qed.

(** What a run of the editor leaves of the session, and where its molecule
    text comes from. *)
Lemma editor_result (s : SessionState) (inp : EditorInput) :
  exists out s',
    functional_group_editor s inp = (out, s')
    /\ message s' = ""
    /\ score s' = score s /\ game_mode s' = game_mode s
    /\ start_time s' = start_time s
    /\ (current_molecule s' = current_molecule s
        \/ (current_molecule s' = smiles_input inp
            /\ MolFromSmiles (smiles_input inp) <> None)
        \/ exists m, MolToSmiles m = Ok (current_molecule s')).
Proof.
  unfold functional_group_editor.
  set (r1 := if add_group_clicked inp then add_group s (selected_group inp)
             else ([], s)).
  assert (H1 : score (snd r1) = score s /\ game_mode (snd r1) = game_mode s
               /\ start_time (snd r1) = start_time s
               /\ (current_molecule (snd r1) = current_molecule s
                   \/ exists m, MolToSmiles m = Ok (current_molecule (snd r1)))).
  { unfold r1. destruct (add_group_clicked inp); [| cbn; auto].
    apply add_group_keeps. }
  destruct r1 as [out1 s1]. cbn [snd] in H1.
  destruct H1 as (A1 & B1 & C1 & D1).
  destruct (enter_smiles_keeps s1 (smiles_input inp)) as (A & B & C & D).
  destruct (show_message_clears (enter_smiles s1 (smiles_input inp)))
    as (M & Cm & Sc & G & St & _).
  destruct (show_message (enter_smiles s1 (smiles_input inp))) as [out2 s3].
  cbn [snd] in *. exists (out1 ++ out2), s3.
  split; [reflexivity |]. split; [exact M |].
  split; [congruence |]. split; [congruence |]. split; [congruence |].
  rewrite Cm. destruct D as [D | D].
  - rewrite D. destruct D1 as [D1 | [m D1]].
    + left. exact D1.
    + right. right. exists m. exact D1.
  - right. left. exact D.
Qed.

(** X26. Every run of the editor ends with the message cleared (a message is
    shown in the run that sets it and never carried into the next), and
    the editor never touches the score, the game mode or the start time. *)
Theorem editor_clears_message :
  forall (s : SessionState) (inp : EditorInput),
    message (snd (functional_group_editor s inp)) = ""
    /\ score (snd (functional_group_editor s inp)) = score s
    /\ game_mode (snd (functional_group_editor s inp)) = game_mode s
    /\ start_time (snd (functional_group_editor s inp)) = start_time s.
Proof.
  intros s inp.
  destruct (editor_result s inp) as (out & s' & E & M & Sc & G & St & _).
  rewrite E. cbn [snd]. repeat split; assumption.
Qed.

(** X27. The current molecule stays a text that parses.  When the toolkit
    reads back what it writes, a run of the editor that starts from a
    molecule text that parses ends with one that parses: a typed text is
    stored only after it parsed, and the product of an attachment is stored
    as the toolkit wrote it. *)
Theorem editor_keeps_molecule_parseable :
  (forall m x, MolToSmiles m = Ok x -> MolFromSmiles x <> None) ->
  forall (s : SessionState) (inp : EditorInput),
    MolFromSmiles (current_molecule s) <> None ->
    MolFromSmiles (current_molecule (snd (functional_group_editor s inp))) <> None.
Proof.
  intros Hlaw s inp Hs.
  destruct (editor_result s inp) as (out & s' & E & _ & _ & _ & _ & Hc).
  rewrite E. cbn [snd].
  destruct Hc as [Hc | [[Hc Hp] | [m Hm]]].
  - rewrite Hc. exact Hs.
  - rewrite Hc. exact Hp.
  - apply (Hlaw m). exact Hm.
Qed.

(** ** A whole run of the page *)

Lemma game_modes_result (s : SessionState) (mode : Mode) (now : R) :
  game_mode (game_modes s mode now) = mode_name mode
  /\ (mode_name mode = game_mode s -> game_modes s mode now = s)
  /\ (mode_name mode <> game_mode s ->
      score (game_modes s mode now) = 0%Z
      /\ current_molecule (game_modes s mode now) = "CC").
Proof.
  unfold game_modes.
  destruct (String.eqb_spec (mode_name mode) (game_mode s)) as [E | N].
  - repeat split; [symmetry; exact E | contradiction | contradiction].
  - repeat split. intros E. contradiction.
Qed.

Lemma timer_result (s : SessionState) (now_start now : R) :
  exists out s' stopped,
    time_trial_timer s now_start now = (out, s', stopped)
    /\ score s' = score s /\ current_molecule s' = current_molecule s
    /\ game_mode s' = game_mode s
    /\ (stopped = true -> game_mode s = "time trial").
Proof.
  unfold time_trial_timer.
  destruct (String.eqb_spec (game_mode s) "time trial") as [E | N].
  - destruct (Rle_dec _ 0); do 3 eexists; (split; [reflexivity |]);
      cbn; repeat split; auto; discriminate.
  - do 3 eexists. split; [reflexivity |]. repeat split. discriminate.
Qed.

(** X28. The session steps of a run of the page (drawing left out) raise no
    exception.  The run ends in the mode the sidebar selects; without a
    change of mode the score goes up by at most one and never down, after
    a change of mode it is 0 or 1, and in tutorial mode nothing is ever
    scored: the score is kept, or reset to 0 when the mode was another. *)
Theorem run_scores_at_most_once :
  forall (s : SessionState) (inp : RunInput),
  exists out s',
    main_game_loop s inp = (out, Ok s')
    /\ game_mode s' = mode_name (new_mode inp)
    /\ (mode_name (new_mode inp) = game_mode s ->
        score s' = score s \/ score s' = (score s + 1)%Z)
    /\ (mode_name (new_mode inp) <> game_mode s ->
        score s' = 0%Z \/ score s' = 1%Z)
    /\ (new_mode inp = Tutorial ->
        score s' = if game_mode s =? "tutorial" then score s else 0%Z).
Proof.
  intros s inp. unfold main_game_loop.
  destruct (game_modes_result s (new_mode inp) (clock_modes inp))
    as (G1 & Gsame & Gdiff).
  set (s1 := game_modes s (new_mode inp) (clock_modes inp)) in *.
  destruct (timer_result s1 (clock_start inp) (clock_now inp))
    as (out1 & s2 & stopped & Et & Sc2 & _ & G2 & Hstop).
  rewrite Et.
  assert (Hs1 : (mode_name (new_mode inp) = game_mode s -> score s1 = score s)
                /\ (mode_name (new_mode inp) <> game_mode s -> score s1 = 0%Z)).
  { split; intros H.
    - rewrite (Gsame H). reflexivity.
    - apply (Gdiff H). }
  assert (Htut1 : new_mode inp = Tutorial ->
                  score s1 = if game_mode s =? "tutorial" then score s else 0%Z).
  { intros Hm.
    destruct (String.eqb_spec (game_mode s) "tutorial") as [E | N].
    - apply (proj1 Hs1). rewrite Hm. cbn. symmetry. exact E.
    - apply (proj2 Hs1). rewrite Hm. cbn. intros E. apply N. symmetry. exact E. }
  destruct stopped.
  - exists out1, s2. split; [reflexivity |].
    split; [congruence |].
    split; [intros H; left; rewrite Sc2; apply (proj1 Hs1 H) |].
    split; [intros H; left; rewrite Sc2; apply (proj2 Hs1 H) |].
    intros Hm. rewrite Sc2. apply Htut1, Hm.
  - set (s3 := display_molecule s2 (toggle_3d inp)).
    assert (E3 : score s3 = score s2 /\ game_mode s3 = game_mode s2)
      by (split; reflexivity).
    destruct (display_result s3
                (calculate_lipinski_parameters (MolFromSmiles (current_molecule s3))))
      as (s4 & Ed & Sc4 & Tut4 & _ & G4 & _).
    rewrite Ed.
    destruct (editor_result s4 (editor_input inp))
      as (out2 & s5 & Ee & _ & Sc5 & G5 & _).
    rewrite Ee. exists (out1 ++ out2), s5. split; [reflexivity |].
    destruct E3 as (Sc3 & G3).
    split; [congruence |].
    assert (Hstep : score s5 = score s1 \/ score s5 = (score s1 + 1)%Z).
    { rewrite Sc5. destruct Sc4 as [Sc4 | Sc4]; [left | right]; congruence. }
    split; [| split].
    + intros H. rewrite <- (proj1 Hs1 H). exact Hstep.
    + intros H. rewrite (proj2 Hs1 H) in Hstep. exact Hstep.
    + intros Hm. rewrite <- (Htut1 Hm), Sc5.
      rewrite (Tut4 ltac:(rewrite G3, G2, G1, Hm; reflexivity)).
      congruence.
Qed.

(** X29. When the time trial is over, the run stops at the timer: with the
    time trial running since a start time 60 seconds or more before the
    clock reading, the run shows "Time's up!" and leaves the whole session
    as it was; nothing is scored and no edit is taken. *)
Theorem time_up_freezes_the_session :
  forall (s : SessionState) (inp : RunInput) (t0 : R),
    game_mode s = "time trial" -> new_mode inp = TimeTrial ->
    start_time s = Some t0 -> (60 <= clock_now inp - t0)%R ->
    main_game_loop s inp = ([StError "Time's up!"], Ok s).
Proof.
  intros s inp t0 Hmode Hnew Hstart Hlate. unfold main_game_loop.
  assert (E1 : game_modes s (new_mode inp) (clock_modes inp) = s).
  { apply (game_modes_result s (new_mode inp) (clock_modes inp)).
    rewrite Hnew, Hmode. reflexivity. }
  rewrite E1. unfold time_trial_timer. rewrite Hmode. cbn [String.eqb Ascii.eqb Bool.eqb].
  rewrite Hstart.
  destruct (Rle_dec (60 - (clock_now inp - t0)) 0) as [_ | N]; [| lra].
  destruct s as [sc cm gm msg v st sub]. cbn in *. subst st gm. reflexivity.
Qed.

(** X30. Over a whole run the current molecule stays a text that parses,
    when the toolkit reads "CC" and reads back what it writes: the run
    keeps the text, resets it to "CC" on a change of mode, or stores what
    the editor accepted. *)
Theorem run_keeps_molecule_parseable :
  MolFromSmiles "CC" <> None ->
  (forall m x, MolToSmiles m = Ok x -> MolFromSmiles x <> None) ->
  forall (s s' : SessionState) (inp : RunInput) (out : list ui_event),
    MolFromSmiles (current_molecule s) <> None ->
    main_game_loop s inp = (out, Ok s') ->
    MolFromSmiles (current_molecule s') <> None.
Proof.
  intros Hcc Hlaw s s' inp out Hs. unfold main_game_loop.
  destruct (game_modes_result s (new_mode inp) (clock_modes inp))
    as (_ & Gsame & Gdiff).
  set (s1 := game_modes s (new_mode inp) (clock_modes inp)) in *.
  assert (H1 : MolFromSmiles (current_molecule s1) <> None).
  { destruct (String.eqb_spec (mode_name (new_mode inp)) (game_mode s)) as [E | N].
    - rewrite (Gsame E). exact Hs.
    - rewrite (proj2 (Gdiff N)). exact Hcc. }
  destruct (timer_result s1 (clock_start inp) (clock_now inp))
    as (out1 & s2 & stopped & Et & _ & C2 & _ & _).
  rewrite Et. destruct stopped.
  - intros E. injection E as _ <-. rewrite C2. exact H1.
  - set (s3 := display_molecule s2 (toggle_3d inp)).
    destruct (display_result s3
                (calculate_lipinski_parameters (MolFromSmiles (current_molecule s3))))
      as (s4 & Ed & _ & _ & C4 & _).
    rewrite Ed.
    destruct (editor_result s4 (editor_input inp))
      as (out2 & s5 & Ee & _ & _ & _ & _ & Hc).
    rewrite Ee. intros E. injection E as _ <-.
    assert (H4 : MolFromSmiles (current_molecule s4) <> None).
    { rewrite C4. unfold s3. cbn [current_molecule display_molecule].
      rewrite C2. exact H1. }
    destruct Hc as [Hc | [[Hc Hp] | [m Hm]]].
    + rewrite Hc. exact H4.
    + rewrite Hc. exact Hp.
    + apply (Hlaw m). exact Hm.
Qed.

End WithToolkit.

Lemma display_scores_at_most_once_witness :
  exists s',
    display_parameters (mkSession 0 "CC" "tutorial" "" false None None)
      (calculate_lipinski_parameters (Ds := TableDescriptors)
         (MolFromSmiles (Toolkit := TableToolkit) "CC"))
      (check_lipinski_compliance
         (calculate_lipinski_parameters (Ds := TableDescriptors)
            (MolFromSmiles (Toolkit := TableToolkit) "CC")))
    = Ok s'
    /\ s' = mkSession 0 "CC" "tutorial" "" false None None.
Proof.
  destruct (display_scores_at_most_once
              (mkSession 0 "CC" "tutorial" "" false None None)
              (calculate_lipinski_parameters (Ds := TableDescriptors)
                 (MolFromSmiles (Toolkit := TableToolkit) "CC")))
    as (s' & E & _ & _ & Htut & _).
  exists s'. split; [exact E |]. apply Htut. reflexivity.
Defined.

Lemma run_scores_at_most_once_witness :
  exists out s',
    main_game_loop (T := TableToolkit) (Ds := TableDescriptors)
      (mkSession 3 "CC" "design challenge" "" false None None)
      (mkRun Tutorial 0 0 0 false (mkInput false Methyl "CC"))
    = (out, Ok s')
    /\ score s' = 0%Z.
Proof.
  destruct (run_scores_at_most_once (T := TableToolkit) (Ds := TableDescriptors)
              (mkSession 3 "CC" "design challenge" "" false None None)
              (mkRun Tutorial 0 0 0 false (mkInput false Methyl "CC")))
    as (out & s' & E & _ & _ & _ & Htut).
  exists out, s'. split; [exact E |]. apply (Htut eq_refl).
Defined.

Lemma time_up_freezes_the_session_witness :
  main_game_loop (T := TableToolkit) (Ds := TableDescriptors)
    (mkSession 2 "CCO" "time trial" "" false (Some 100%R) (Some true))
    (mkRun TimeTrial 0 0 161 false (mkInput true Methyl "CC"))
  = ([StError "Time's up!"],
     Ok (mkSession 2 "CCO" "time trial" "" false (Some 100%R) (Some true))).
Proof.
  apply (time_up_freezes_the_session (T := TableToolkit) (Ds := TableDescriptors)
           _ _ 100%R); try reflexivity.
  cbn. lra.
Defined.

Lemma editor_keeps_molecule_parseable_witness :
  MolFromSmiles (Toolkit := TableToolkit)
    (current_molecule
       (snd (functional_group_editor (T := TableToolkit)
               (mkSession 0 "CC" "tutorial" "" false None None)
               (mkInput false Methyl "CO")))) <> None.
Proof.
  apply (editor_keeps_molecule_parseable (T := TableToolkit)
           TableToolkit_writes_readable).
  discriminate.
Defined.

Lemma run_keeps_molecule_parseable_witness :
  exists out s',
    main_game_loop (T := TableToolkit) (Ds := TableDescriptors)
      (mkSession 0 "CC" "tutorial" "" false None None)
      (mkRun DesignChallenge 0 0 0 false (mkInput false Methyl "CO"))
    = (out, Ok s')
    /\ MolFromSmiles (Toolkit := TableToolkit) (current_molecule s') <> None.
Proof.
  destruct (main_game_loop (T := TableToolkit) (Ds := TableDescriptors)
              (mkSession 0 "CC" "tutorial" "" false None None)
              (mkRun DesignChallenge 0 0 0 false (mkInput false Methyl "CO")))
    as [out [s' | e]] eqn:E.
  - exists out, s'. split; [reflexivity |].
    apply (run_keeps_molecule_parseable (T := TableToolkit) (Ds := TableDescriptors)
             ltac:(discriminate) TableToolkit_writes_readable
             (mkSession 0 "CC" "tutorial" "" false None None) s'
             (mkRun DesignChallenge 0 0 0 false (mkInput false Methyl "CO")) out
             ltac:(discriminate) E).
  - exfalso. revert E. vm_compute. discriminate.
Defined.

End GameFacts.
